(** * gh_issue_generator: checklist parser and issue builder

    A shallow embedding of [scripts/gh_issue_generator.py] and the
    properties of its parser, its content builder and its driver.

    Python text is a sequence of Unicode code points; the three patterns
    of [parse_checklist] are kept as regular expressions and run by a
    backtracking matcher with the priorities of Python's [re] module. *)

From Stdlib Require Import String Ascii List NArith ZArith Bool Arith Lia.
Import ListNotations.

Set Implicit Arguments.

(** ** Python text *)

Module Text.

(** A character is a Unicode code point, a [str] is a list of them. *)
Definition char := N.
Definition pystr := list char.

(** ASCII literal to Python text. *)
Fixpoint u (s : string) : pystr :=
  match s with
  | EmptyString => []
  | String a s' => N_of_ascii a :: u s'
  end.
Arguments u s%_string.

Definition nl : char := 10%N.
Definition sp : char := 32%N.

Definition str_eqb (a b : pystr) : bool :=
  if list_eq_dec N.eq_dec a b then true else false.

(** [x in table] for a table of inclusive ranges [(first, count)]. *)
Definition in_ranges (tbl : list (N * N)) (x : char) : bool :=
  existsb (fun r => (fst r <=? x)%N && (x <? fst r + snd r)%N) tbl.

(** [str.isspace] on one character, which is also what [\s] matches and
    what [str.strip()] removes: the characters of bidirectional class
    WS, B or S and of category Zs. *)
Definition whitespace_table : list (N * N) :=
  [ (0x09, 5); (0x1c, 4); (0x20, 1); (0x85, 1); (0xa0, 1); (0x1680, 1);
    (0x2000, 11); (0x2028, 2); (0x202f, 1); (0x205f, 1); (0x3000, 1) ]%N.

Definition isspace : char -> bool := in_ranges whitespace_table.

(** [str.isdecimal] on one character, which is what [\d] matches on
    text patterns: Unicode category Nd (Unicode 14). *)
Definition decimal_table : list (N * N) :=
  [ (0x30, 10); (0x660, 10); (0x6f0, 10); (0x7c0, 10); (0x966, 10);
    (0x9e6, 10); (0xa66, 10); (0xae6, 10); (0xb66, 10); (0xbe6, 10);
    (0xc66, 10); (0xce6, 10); (0xd66, 10); (0xde6, 10); (0xe50, 10);
    (0xed0, 10); (0xf20, 10); (0x1040, 10); (0x1090, 10); (0x17e0, 10);
    (0x1810, 10); (0x1946, 10); (0x19d0, 10); (0x1a80, 10); (0x1a90, 10);
    (0x1b50, 10); (0x1bb0, 10); (0x1c40, 10); (0x1c50, 10); (0xa620, 10);
    (0xa8d0, 10); (0xa900, 10); (0xa9d0, 10); (0xa9f0, 10); (0xaa50, 10);
    (0xabf0, 10); (0xff10, 10); (0x104a0, 10); (0x10d30, 10);
    (0x11066, 10); (0x110f0, 10); (0x11136, 10); (0x111d0, 10);
    (0x112f0, 10); (0x11450, 10); (0x114d0, 10); (0x11650, 10);
    (0x116c0, 10); (0x11730, 10); (0x118e0, 10); (0x11950, 10);
    (0x11c50, 10); (0x11d50, 10); (0x11da0, 10); (0x16a60, 10);
    (0x16ac0, 10); (0x16b50, 10); (0x1d7ce, 50); (0x1e140, 10);
    (0x1e2f0, 10); (0x1e950, 10); (0x1fbf0, 10) ]%N.

Definition isdecimal : char -> bool := in_ranges decimal_table.

(** [s.lstrip()], [s.rstrip()], [s.strip()]. *)
Fixpoint lstrip (s : pystr) : pystr :=
  match s with
  | [] => []
  | c :: t => if isspace c then lstrip t else s
  end.

Fixpoint rstrip (s : pystr) : pystr :=
  match s with
  | [] => []
  | c :: t =>
      match rstrip t with
      | [] => if isspace c then [] else [c]
      | t' => c :: t'
      end
  end.

Definition strip (s : pystr) : pystr := rstrip (lstrip s).

(** [s.startswith(p)]. *)
Fixpoint startswith (p s : pystr) : bool :=
  match p, s with
  | [], _ => true
  | a :: p', b :: s' => (a =? b)%N && startswith p' s'
  | _ :: _, [] => false
  end.

(** [s.split(sep)] for a one-character separator: the pieces between
    the separators, one more than there are separators. *)
Fixpoint split (sep : char) (s : pystr) : list pystr :=
  match s with
  | [] => [[]]
  | c :: t =>
      if (c =? sep)%N then [] :: split sep t
      else match split sep t with
           | [] => [[c]]
           | p :: ps => (c :: p) :: ps
           end
  end.

(** [sep.join(parts)]. *)
Fixpoint join (sep : pystr) (parts : list pystr) : pystr :=
  match parts with
  | [] => []
  | [p] => p
  | p :: ps => p ++ sep ++ join sep ps
  end.

(** [str(n)] for a non-negative integer. *)
Definition digit_char (d : nat) : char := (48 + N.of_nat d)%N.

Fixpoint str_of_nat_aux (fuel n : nat) (acc : pystr) : pystr :=
  match fuel with
  | O => acc
  | S fuel' =>
      let acc' := digit_char (n mod 10) :: acc in
      if n / 10 =? 0 then acc' else str_of_nat_aux fuel' (n / 10) acc'
  end.

Definition str_of_nat (n : nat) : pystr := str_of_nat_aux (S n) n [].

(** [s * n]. *)
Fixpoint repeat_str (s : pystr) (n : nat) : pystr :=
  match n with
  | O => []
  | S n' => s ++ repeat_str s n'
  end.

(** Python truthiness of a text. *)
Definition nonempty (s : pystr) : bool :=
  match s with [] => false | _ :: _ => true end.

(** [f.readlines()] in text mode on a text whose line endings are
    already translated to [\n]: the lines, each with its ending. *)
Fixpoint readlines_aux (cur : pystr) (s : pystr) : list pystr :=
  match s with
  | [] => match cur with [] => [] | _ => [rev cur] end
  | c :: t =>
      if (c =? nl)%N then rev (c :: cur) :: readlines_aux [] t
      else readlines_aux (c :: cur) t
  end.

Definition readlines (s : pystr) : list pystr := readlines_aux [] s.

End Text.
Import Text.

(** ** Regular expressions *)

Module Re.

Inductive regex : Type :=
| Bol                                  (* ^ *)
| Eol                                  (* $ *)
| Chr (p : char -> bool)               (* one character of a class *)
| Lit (l : pystr)                      (* literal text *)
| Seq (r1 r2 : regex)
| Star (greedy : bool) (r : regex)     (* r* and r*? *)
| Group (n : nat) (r : regex).         (* capturing group number n *)

(** [.] without DOTALL. *)
Definition dot : char -> bool := fun c => negb (c =? nl)%N.
(** A character set [[...]]. *)
Definition one_of (l : list char) : char -> bool :=
  fun c => existsb (N.eqb c) l.
(** [r+] and [r+?]. *)
Definition Plus (greedy : bool) (r : regex) : regex :=
  Seq r (Star greedy r).

(** The groups of a match object, latest first. *)
Definition captures := list (nat * pystr).

Fixpoint group (n : nat) (m : captures) : option pystr :=
  match m with
  | [] => None
  | (i, w) :: m' => if i =? n then Some w else group n m'
  end.

Fixpoint strip_prefix (l s : pystr) : option pystr :=
  match l, s with
  | [], _ => Some s
  | a :: l', b :: s' => if (a =? b)%N then strip_prefix l' s' else None
  | _ :: _, [] => None
  end.

Definition orelse {A} (a b : option A) : option A :=
  match a with Some _ => a | None => b end.

(** The continuation takes the position, the rest of the subject and
    the groups so far. *)
Definition cont := nat -> pystr -> captures -> option captures.

(** Backtracking matcher: [rmatch r pos s c k] matches [r] at position
    [pos], where [s] is the rest of the subject, and hands what is left
    to [k]; alternatives are tried in the order of [re]: a greedy star
    first tries one more iteration, a lazy one first tries to stop.  An
    iteration of a star has to consume a character, which is how [re]
    behaves for a body that cannot match the empty text, as is the case
    of every star of the three patterns below. *)
Fixpoint rmatch (r : regex) (pos : nat) (s : pystr) (c : captures)
         (k : cont) {struct r} : option captures :=
  match r with
  | Bol => if pos =? 0 then k pos s c else None
  | Eol =>
      match s with
      | [] => k pos s c
      | [x] => if (x =? nl)%N then k pos s c else None
      | _ => None
      end
  | Chr p =>
      match s with
      | x :: s' => if p x then k (S pos) s' c else None
      | [] => None
      end
  | Lit l =>
      match strip_prefix l s with
      | Some s' => k (pos + length l) s' c
      | None => None
      end
  | Seq r1 r2 =>
      rmatch r1 pos s c (fun pos' s' c' => rmatch r2 pos' s' c' k)
  | Group n r1 =>
      rmatch r1 pos s c
        (fun pos' s' c' => k pos' s' ((n, firstn (pos' - pos) s) :: c'))
  | Star greedy r1 =>
      (fix loop (fuel : nat) (pos : nat) (s : pystr) (c : captures)
         {struct fuel} : option captures :=
         match fuel with
         | O => k pos s c
         | S fuel' =>
             let more :=
               rmatch r1 pos s c
                 (fun pos' s' c' =>
                    if pos <? pos' then loop fuel' pos' s' c' else None) in
             if greedy then orelse more (k pos s c)
             else orelse (k pos s c) more
         end) (length s) pos s c
  end.

(** [re.match(r, s)]: a match at the start of [s], or [None]. *)
Definition re_match (r : regex) (s : pystr) : option captures :=
  rmatch r 0 s [] (fun _ _ c => Some c).

End Re.
Import Re.

(** ** The three line patterns of [parse_checklist] *)

(** The characters of the set closing the phase pattern: U+2699 with
    its variation selector U+FE0F, U+1F310, U+1F50C, U+1F3A8, U+1F512,
    U+1F4E6, U+2728, U+1F680. *)
Definition decorations : list char :=
  [0x2699; 0xfe0f; 0x1f310; 0x1f50c; 0x1f3a8; 0x1f512; 0x1f4e6; 0x2728;
   0x1f680]%N.

(** [^## (Phase \d+:.+?)(?:\s*[...])*\s*$] *)
Definition phase_re : regex :=
  Seq Bol
 (Seq (Lit (u "## "))
 (Seq (Group 1
        (Seq (Lit (u "Phase "))
        (Seq (Plus true (Chr isdecimal))
        (Seq (Lit (u ":"))
             (Plus false (Chr dot))))))
 (Seq (Star true (Seq (Star true (Chr isspace)) (Chr (one_of decorations))))
 (Seq (Star true (Chr isspace))
      Eol)))).

(** [^### (.+)$] *)
Definition section_re : regex :=
  Seq Bol (Seq (Lit (u "### ")) (Seq (Group 1 (Plus true (Chr dot))) Eol)).

(** [^- \[ \] (.+)$] *)
Definition task_re : regex :=
  Seq Bol (Seq (Lit (u "- [ ] ")) (Seq (Group 1 (Plus true (Chr dot))) Eol)).

(** ** Exceptions *)

Inductive exn : Type :=
| KeyError (key : pystr)          (* a missing dictionary key *)
| AttributeError                  (* a method called on [None] *)
| OSError (path : pystr)          (* the file cannot be opened or read,
                                     the program cannot be started *)
| UnicodeDecodeError              (* bytes that are no text in the encoding *)
| ValueError                      (* an argument with a NUL character *)
| SystemExit (code : Z).          (* raised by [sys.exit] *)

Inductive result (A : Type) : Type :=
| Ok (a : A)
| Raise (e : exn).
Arguments Ok {A} a.
Arguments Raise {A} e.

Definition rbind {A B} (r : result A) (f : A -> result B) : result B :=
  match r with
  | Ok a => f a
  | Raise e => Raise e
  end.

Notation "x <- e ;; k" := (rbind e (fun x => k))
  (at level 61, e at next level, right associativity).

(** ** Dictionaries

    A [dict] keeps its keys in the order of their first insertion;
    assigning to a key that is present replaces the value in place. *)

Module Dict.
Section Dict.
Variable V : Type.

Definition dict := list (pystr * V).

(** [d.get(k)] *)
Fixpoint get (k : pystr) (d : dict) : option V :=
  match d with
  | [] => None
  | (k', v) :: d' => if str_eqb k' k then Some v else get k d'
  end.

(** [d[k]] *)
Definition getitem (k : pystr) (d : dict) : result V :=
  match get k d with
  | Some v => Ok v
  | None => Raise (KeyError k)
  end.

(** [d[k] = v] *)
Fixpoint set (k : pystr) (v : V) (d : dict) : dict :=
  match d with
  | [] => [(k, v)]
  | (k', v') :: d' =>
      if str_eqb k' k then (k', v) :: d' else (k', v') :: set k v d'
  end.

Definition keys (d : dict) : list pystr := map fst d.
Definition values (d : dict) : list V := map snd d.
End Dict.
End Dict.

(** ** parse_checklist *)

(** The nested mapping phase -> section -> tasks. *)
Definition sections_t := Dict.dict (list pystr).
Definition phases_t := Dict.dict sections_t.

(** The three variables of the loop. *)
Record pstate : Type := PState {
  phases : phases_t;
  current_phase : option pystr;
  current_section : option pystr
}.

Definition initial : pstate :=
  {| phases := []; current_phase := None; current_section := None |}.

(** A variable that is [None] or a text, used as a condition. *)
Definition truthy (v : option pystr) : option pystr :=
  match v with
  | Some s => if nonempty s then Some s else None
  | None => None
  end.

(** [m.group(n).strip()] *)
Definition group_strip (n : nat) (m : captures) : result pystr :=
  match group n m with
  | Some w => Ok (strip w)
  | None => Raise AttributeError
  end.

(** The body of the loop over the lines: the three patterns are tried
    on [line.strip()] in turn.  A phase header sets [current_phase] and
    [phases[current_phase] = {}]; a section header, when there is a
    current phase, sets [current_section] and
    [phases[current_phase][current_section] = []]; an unchecked task,
    when there are a current phase and a current section, is appended
    to [phases[current_phase][current_section]]. *)
Definition step (st : pstate) (line : pystr) : result pstate :=
  let s := strip line in
  match re_match phase_re s with
  | Some m =>
      cp <- group_strip 1 m ;;
      Ok {| phases := Dict.set cp [] st.(phases);
            current_phase := Some cp;
            current_section := st.(current_section) |}
  | None =>
      match re_match section_re s, truthy st.(current_phase) with
      | Some m, Some cp =>
          cs <- group_strip 1 m ;;
          secs <- Dict.getitem cp st.(phases) ;;
          Ok {| phases := Dict.set cp (Dict.set cs [] secs) st.(phases);
                current_phase := st.(current_phase);
                current_section := Some cs |}
      | _, _ =>
          match re_match task_re s,
                truthy st.(current_phase), truthy st.(current_section) with
          | Some m, Some cp, Some cs =>
              task <- group_strip 1 m ;;
              secs <- Dict.getitem cp st.(phases) ;;
              tasks <- Dict.getitem cs secs ;;
              Ok {| phases :=
                      Dict.set cp (Dict.set cs (tasks ++ [task]) secs)
                               st.(phases);
                    current_phase := st.(current_phase);
                    current_section := st.(current_section) |}
          | _, _, _ => Ok st
          end
      end
  end.

(** [for line in lines: ...] *)
Fixpoint run_lines (st : pstate) (lines : list pystr) : result pstate :=
  match lines with
  | [] => Ok st
  | line :: rest => st' <- step st line ;; run_lines st' rest
  end.

(** The loop and the [return phases] after it. *)
Definition parse_lines (lines : list pystr) : result phases_t :=
  st <- run_lines initial lines ;; Ok st.(phases).

(** What a file holds: a text, or bytes that the default encoding
    cannot decode. *)
Inductive file : Type :=
| Text (text : pystr)
| Undecodable.

(** The files: path to contents, [None] when [open] or the read
    fails with an [OSError].  The paths are those that a process can
    be given as an argument: without NUL character, for which [open]
    raises [ValueError]. *)
Definition filesystem := pystr -> option file.

Definition parse_checklist (fs : filesystem) (filepath : pystr)
  : result phases_t :=
  match fs filepath with
  | None => Raise (OSError filepath)
  | Some Undecodable => Raise UnicodeDecodeError
  | Some (Text text) => parse_lines (readlines text)
  end.

(** ** generate_issue_content *)

Definition colon : char := 58%N.

Definition body_head (phase section : pystr) : pystr :=
  u "## Description" ++ [nl] ++
  u "Implement the following tasks for **" ++ section ++ u "** in **" ++
    phase ++ u "**." ++ [nl] ++
  [nl] ++
  u "## Tasks" ++ [nl].

Definition body_tail : pystr :=
  [nl] ++
  u "## Context" ++ [nl] ++
  u "This issue is part of the implementation checklist for the Proxy Desktop Browser project." ++ [nl] ++
  [nl] ++
  u "## Acceptance Criteria" ++ [nl] ++
  u "- All tasks listed above are completed" ++ [nl] ++
  u "- Code is tested and working" ++ [nl] ++
  u "- Documentation is updated if needed" ++ [nl].

Definition generate_issue_content (phase section : pystr)
           (tasks : list pystr) : pystr * pystr :=
  let title := u "[" ++ nth 0 (split colon phase) [] ++ u "] " ++ section in
  let body := body_head phase section in
  let body :=
    fold_left (fun body task => body ++ u "- [ ] " ++ task ++ [nl])
              tasks body in
  let body := body ++ body_tail in
  (title, body).

(** The lines of a text, and those that are unchecked checkbox items. *)
Definition text_lines (s : pystr) : list pystr := split nl s.
Definition checkbox_lines (s : pystr) : list pystr :=
  filter (startswith (u "- [ ] ")) (text_lines s).

(** ** The process: standard output and the external tracker *)

(** What [subprocess.run(cmd, capture_output=True, text=True)] returns. *)
Record completed : Type := Completed {
  returncode : Z;
  stdout : pystr;
  stderr : pystr
}.

Definition command := list pystr.

(** What running a command comes to: the program ends with a status,
    it cannot be started ([FileNotFoundError] and the other [OSError]s),
    or what it wrote cannot be decoded as text. *)
Inductive outcome : Type :=
| Exits (c : completed)
| NotStarted
| NotText.

(** The external command: what it comes to may depend on the commands
    that were run before it. *)
Definition tracker := list command -> command -> outcome.

(** [subprocess.run] raises [ValueError] for an argument with a NUL
    character, before it starts anything. *)
Definition has_nul (s : pystr) : bool := existsb (N.eqb 0) s.

(** What the process has done so far: the texts given to [print], one
    per call, and the commands it has started. *)
Record world : Type := World {
  printed : list pystr;
  spawned : list command
}.

Definition start : world := {| printed := []; spawned := [] |}.

(** Statements: they change the world and return or raise. *)
Definition prog (A : Type) : Type := world -> result A * world.

Definition ret {A} (a : A) : prog A := fun w => (Ok a, w).

Definition bind {A B} (m : prog A) (f : A -> prog B) : prog B :=
  fun w =>
    match m w with
    | (Ok a, w') => f a w'
    | (Raise e, w') => (Raise e, w')
    end.

Notation "x <~ e ;; k" := (bind e (fun x => k))
  (at level 61, e at next level, right associativity).
Notation "e >> k" := (bind e (fun _ => k))
  (at level 61, right associativity).

Definition lift {A} (r : result A) : prog A := fun w => (r, w).

Definition print (s : pystr) : prog unit :=
  fun w => (Ok tt, {| printed := w.(printed) ++ [s];
                      spawned := w.(spawned) |}).

(** [sys.exit(code)] *)
Definition sys_exit {A} (code : Z) : prog A := lift (Raise (SystemExit code)).

(** [for x in l: s = f(s, x)] *)
Fixpoint for_fold {A S} (l : list A) (s : S) (f : S -> A -> prog S)
  : prog S :=
  match l with
  | [] => ret s
  | x :: l' => s' <~ f s x ;; for_fold l' s' f
  end.

(** [for x in l: f(x)] *)
Definition for_each {A} (l : list A) (f : A -> prog unit) : prog unit :=
  for_fold l tt (fun _ x => f x).

(** [x in l] and [l.index(x)] on lists of texts. *)
Definition contains (x : pystr) (l : list pystr) : bool :=
  existsb (str_eqb x) l.

Fixpoint index (x : pystr) (l : list pystr) : option nat :=
  match l with
  | [] => None
  | y :: l' => if str_eqb y x then Some 0
               else option_map S (index x l')
  end.

(** The status the process ends with: zero after [main] returns, the
    code of [sys.exit], and one after any other exception, which the
    interpreter reports with a traceback. *)
Definition exit_status (r : result unit) : Z :=
  match r with
  | Ok _ => 0
  | Raise (SystemExit code) => code
  | Raise _ => 1
  end.

(** [if phase_filter and not phase.startswith(f"Phase {phase_filter}")] *)
Definition phase_skipped (phase_filter : option pystr) (phase : pystr)
  : bool :=
  match truthy phase_filter with
  | Some f => negb (startswith (u "Phase " ++ f) phase)
  | None => false
  end.

(** The two nested loops of [main] that fill [issues_to_create]. *)
Definition collect_issues (phase_filter : option pystr) (phases : phases_t)
  : list (pystr * pystr * pystr) :=
  fold_left
    (fun issues (item : pystr * sections_t) =>
       let (phase, sections) := item in
       if phase_skipped phase_filter phase then issues
       else
         fold_left
           (fun issues (item : pystr * list pystr) =>
              let (section, tasks) := item in
              match tasks with
              | [] => issues
              | _ :: _ =>
                  let (title, body) :=
                    generate_issue_content phase section tasks in
                  issues ++ [(title, body, phase)]
              end)
           sections issues)
    phases [].

Section Driver.

Variable fs : filesystem.
Variable gh : tracker.

Definition subprocess_run (cmd : command) : prog completed :=
  fun w =>
    if existsb has_nul cmd then (Raise ValueError, w)
    else
      let started :=
        {| printed := w.(printed); spawned := w.(spawned) ++ [cmd] |} in
      match gh w.(spawned) cmd with
      | Exits c => (Ok c, started)
      | NotStarted => (Raise (OSError (nth 0 cmd [])), w)
      | NotText => (Raise UnicodeDecodeError, started)
      end.

Definition issue_command (title body : pystr)
           (labels : option (list pystr)) : command :=
  let cmd := [u "gh"; u "issue"; u "create"; u "--title"; title;
              u "--body"; body] in
  match labels with
  | Some (l :: ls) => cmd ++ [u "--label"; join (u ",") (l :: ls)]
  | _ => cmd
  end.

Definition create_github_issue (title body : pystr)
           (labels : option (list pystr)) : prog bool :=
  let cmd := issue_command title body labels in
  result <~ subprocess_run cmd ;;
  if (result.(returncode) =? 0)%Z then
    print ([0x2705]%N ++ u " Created issue: " ++ title) >>
    print (u "   URL: " ++ strip result.(stdout)) >>
    ret true
  else
    print ([0x274c]%N ++ u " Failed to create issue: " ++ title) >>
    print (u "   Error: " ++ result.(stderr)) >>
    ret false.

Definition usage : prog unit :=
  print (u "Usage: python gh_issue_generator.py <checklist_file> [--create] [--phase <phase_num>]") >>
  print ([nl] ++ u "Options:") >>
  print (u "  --create     Actually create the issues on GitHub") >>
  print (u "  --phase N    Only process phase N (e.g., --phase 3)") >>
  print (u "  --list       List all phases and sections with task counts") >>
  sys_exit 1.

Definition list_summary (phases : phases_t) : prog unit :=
  print ([nl] ++ u "=== Implementation Checklist Summary ===" ++ [nl]) >>
  total_tasks <~
    for_fold phases 0
      (fun total_tasks (item : pystr * sections_t) =>
         let (phase, sections) := item in
         let phase_tasks :=
           list_sum (map (@length pystr) (Dict.values sections)) in
         let total_tasks := total_tasks + phase_tasks in
         print ([nl] ++ phase ++ u " (" ++ str_of_nat phase_tasks ++
                u " tasks)") >>
         for_each sections
           (fun (item : pystr * list pystr) =>
              let (section, tasks) := item in
              match tasks with
              | [] => ret tt
              | _ :: _ =>
                  print (u "  - " ++ section ++ u ": " ++
                         str_of_nat (length tasks) ++ u " tasks")
              end) >>
         ret total_tasks) ;;
  print ([nl] ++ repeat_str (u "=") 40) >>
  print (u "Total uncompleted tasks: " ++ str_of_nat total_tasks).

(** The loop that submits the issues, one after the other. *)
Definition submit_all (issues : list (pystr * pystr * pystr))
  : prog unit :=
  for_each issues
    (fun (issue : pystr * pystr * pystr) =>
       let '(title, body, _) := issue in
       create_github_issue title body None >> ret tt).

Definition main (argv : list pystr) : prog unit :=
  (if length argv <? 2 then usage else ret tt) >>
  let filepath := nth 1 argv [] in
  let create_issues := contains (u "--create") argv in
  let list_only := contains (u "--list") argv in
  let phase_filter :=
    if contains (u "--phase") argv then
      match index (u "--phase") argv with
      | Some idx =>
          if idx + 1 <? length argv then Some (nth (idx + 1) argv [])
          else None
      | None => None
      end
    else None in
  phases <~ lift (parse_checklist fs filepath) ;;
  if list_only then list_summary phases
  else
    print ([nl] ++ u "=== GitHub Issue Generator ===" ++ [nl]) >>
    let issues_to_create := collect_issues phase_filter phases in
    print (u "Found " ++ str_of_nat (length issues_to_create) ++
           u " potential issues to create:" ++ [nl]) >>
    for_fold issues_to_create 1
      (fun i (issue : pystr * pystr * pystr) =>
         let '(title, _, _) := issue in
         print (str_of_nat i ++ u ". " ++ title) >> ret (S i)) >>
    if create_issues then
      print ([nl] ++ u "Creating " ++
             str_of_nat (length issues_to_create) ++
             u " issues on GitHub..." ++ [nl]) >>
      submit_all issues_to_create
    else
      print ([nl] ++ u "Run with --create flag to actually create these issues on GitHub.") >>
      print (u "Example: python gh_issue_generator.py IMPLEMENTATION_CHECKLIST.md --create").

(** Running the script with the arguments [argv]. *)
Definition run_main (argv : list pystr) : result unit * world :=
  main argv start.

End Driver.

(** ** What a pattern can match

    [matches r pos w rest c c']: at position [pos] the pattern [r] can
    consume the text [w], with [rest] after it, and turns the groups
    [c] into [c'].  The matcher only ever finds such matches. *)

Inductive matches : regex -> nat -> pystr -> pystr -> captures -> captures
                    -> Prop :=
| m_bol : forall rest c, matches Bol 0 [] rest c c
| m_eol : forall pos rest c,
    rest = [] \/ rest = [nl] -> matches Eol pos [] rest c c
| m_chr : forall p x pos rest c,
    p x = true -> matches (Chr p) pos [x] rest c c
| m_lit : forall l pos rest c, matches (Lit l) pos l rest c c
| m_seq : forall r1 r2 pos w1 w2 rest c c1 c2,
    matches r1 pos w1 (w2 ++ rest) c c1 ->
    matches r2 (pos + length w1) w2 rest c1 c2 ->
    matches (Seq r1 r2) pos (w1 ++ w2) rest c c2
| m_group : forall n r pos w rest c c1,
    matches r pos w rest c c1 ->
    matches (Group n r) pos w rest c ((n, w) :: c1)
| m_star_stop : forall g r pos rest c, matches (Star g r) pos [] rest c c
| m_star_more : forall g r pos w1 w2 rest c c1 c2,
    w1 <> [] ->
    matches r pos w1 (w2 ++ rest) c c1 ->
    matches (Star g r) (pos + length w1) w2 rest c1 c2 ->
    matches (Star g r) pos (w1 ++ w2) rest c c2.

(** Patterns without a capturing group. *)
Fixpoint groupless (r : regex) : bool :=
  match r with
  | Seq r1 r2 => groupless r1 && groupless r2
  | Star _ r1 => groupless r1
  | Group _ _ => false
  | _ => true
  end.

(** ** The kinds of lines *)

Inductive kind : Type :=
| PhaseHeader (label : pystr)
| SectionHeader (label : pystr)
| TaskLine (task : pystr)
| Other.

(** A line by the first of the three patterns that it matches, with
    the text of its group, stripped. *)
Definition labelled (mk : pystr -> kind) (m : captures) : kind :=
  match group 1 m with
  | Some w => mk (strip w)
  | None => Other
  end.

Definition classify (line : pystr) : kind :=
  let s := strip line in
  match re_match phase_re s with
  | Some m => labelled PhaseHeader m
  | None =>
      match re_match section_re s with
      | Some m => labelled SectionHeader m
      | None =>
          match re_match task_re s with
          | Some m => labelled TaskLine m
          | None => Other
          end
      end
  end.

Definition is_phase_header (line : pystr) : bool :=
  match classify line with PhaseHeader _ => true | _ => false end.

Definition is_header (line : pystr) : bool :=
  match classify line with
  | PhaseHeader _ | SectionHeader _ => true
  | _ => false
  end.

(** The unchecked tasks on some lines, in their order. *)
Definition unchecked_tasks (lines : list pystr) : list pystr :=
  flat_map (fun l => match classify l with TaskLine t => [t] | _ => [] end)
           lines.

(** The lines up to the next phase header. *)
Fixpoint same_phase (lines : list pystr) : list pystr :=
  match lines with
  | [] => []
  | l :: rest => if is_phase_header l then [] else l :: same_phase rest
  end.

(** A text without a line break. *)
Definition one_line (s : pystr) : Prop := ~ In nl s.


(** The loop body by the kind of the line. *)
Definition step_kind (st : pstate) (k : kind) : result pstate :=
  match k with
  | PhaseHeader cp =>
      Ok {| phases := Dict.set cp [] st.(phases);
            current_phase := Some cp;
            current_section := st.(current_section) |}
  | SectionHeader cs =>
      match truthy st.(current_phase) with
      | Some cp =>
          secs <- Dict.getitem cp st.(phases) ;;
          Ok {| phases := Dict.set cp (Dict.set cs [] secs) st.(phases);
                current_phase := st.(current_phase);
                current_section := Some cs |}
      | None => Ok st
      end
  | TaskLine task =>
      match truthy st.(current_phase), truthy st.(current_section) with
      | Some cp, Some cs =>
          secs <- Dict.getitem cp st.(phases) ;;
          tasks <- Dict.getitem cs secs ;;
          Ok {| phases :=
                  Dict.set cp (Dict.set cs (tasks ++ [task]) secs)
                           st.(phases);
                current_phase := st.(current_phase);
                current_section := st.(current_section) |}
      | _, _ => Ok st
      end
  | Other => Ok st
  end.

(** The tasks recorded for a section of a phase. *)
Definition entry (phs : phases_t) (phase section : pystr)
  : option (list pystr) :=
  match Dict.get phase phs with
  | Some secs => Dict.get section secs
  | None => None
  end.

(** A label that begins with the literal [Phase ]. *)
Definition phase_named (label : pystr) : Prop :=
  startswith (u "Phase ") label = true.
Arguments phase_named : simpl never.

(** ** Sample inputs *)

(** A file system with one file. *)
Definition one_file (path text : pystr) : filesystem :=
  fun p => if str_eqb p path then Some (Text text) else None.

(** Text from its lines, each ended by a line break. *)
Definition unlines (ls : list pystr) : pystr :=
  flat_map (fun l => l ++ [nl]) ls.

(** A checklist whose second phase has a task before its first
    section. *)
Definition stale_section_doc : pystr :=
  unlines [u "## Phase 1: A"; u "### S"; u "## Phase 2: B"; u "- [ ] task"].

(** A checklist in which a section label comes twice in a phase. *)
Definition repeated_section_doc : list pystr :=
  [u "## Phase 1: A"; u "### S"; u "- [ ] t1"; u "### S"].

(** A checklist with the phases 2, 3 and 30, each with one task. *)
Definition three_phases_doc : list pystr :=
  [u "## Phase 2: X"; u "### S"; u "- [ ] a";
   u "## Phase 3: Y"; u "### S"; u "- [ ] b";
   u "## Phase 30: Z"; u "### S"; u "- [ ] c"].



(** A tracker that fails every time. *)
Definition failing_tracker : tracker :=
  fun _ _ => Exits {| returncode := 1; stdout := []; stderr := u "boom" |}.






(** A checked task line: [- [] and a character that is not a space. *)
Definition is_checked (line : pystr) : bool :=
  match strip_prefix (u "- [") (strip line) with
  | Some (c :: _) => negb (sp =? c)%N
  | _ => false
  end.

(** The current phase, when there is one, is a key of the result. *)
Definition phase_is_open (st : pstate) : Prop :=
  forall cp, current_phase st = Some cp -> Dict.get cp (phases st) <> None.

(** A result whose labels and tasks have no line break. *)
Definition one_line_sections (secs : sections_t) : Prop :=
  Forall (fun item => one_line (fst item) /\ Forall one_line (snd item)) secs.

Definition one_line_phases (phs : phases_t) : Prop :=
  Forall (fun item => one_line (fst item) /\ one_line_sections (snd item))
         phs.

(** Whether some task line comes while the current section is not one
    of the current phase.  The flags say whether there is a current
    phase, whether there is a current section, and whether the current
    section is a section of the current phase. *)
Fixpoint stale_task (in_phase in_section fresh : bool)
         (lines : list pystr) : bool :=
  match lines with
  | [] => false
  | l :: rest =>
      match classify l with
      | PhaseHeader _ => stale_task true in_section false rest
      | SectionHeader _ =>
          if in_phase then stale_task true true true rest
          else stale_task in_phase in_section fresh rest
      | TaskLine _ =>
          if in_phase && in_section && negb fresh then true
          else stale_task in_phase in_section fresh rest
      | Other => stale_task in_phase in_section fresh rest
      end
  end.

(** The flags of [stale_task] for a state of the loop. *)
Definition flags_of (st : pstate) (in_phase in_section fresh : bool)
  : Prop :=
  (if in_phase
   then exists cp, current_phase st = Some cp /\ cp <> [] /\
                   Dict.get cp (phases st) <> None
   else current_phase st = None) /\
  (if in_section
   then exists cs, current_section st = Some cs /\ cs <> []
   else current_section st = None) /\
  (forall cp cs,
      current_phase st = Some cp -> current_section st = Some cs ->
      if fresh then entry (phases st) cp cs <> None
      else entry (phases st) cp cs = None).

(** A text as [strip] leaves it, not empty and without a line break. *)
Definition clean (s : pystr) : Prop :=
  s <> [] /\ strip s = s /\ one_line s.

(** A label [Phase <digits>:<text>]. *)
Definition phase_label (s : pystr) : Prop :=
  exists digits text,
    s = u "Phase " ++ digits ++ colon :: text /\
    digits <> [] /\ forallb isdecimal digits = true.

(** A result whose phase labels satisfy [Qp], section labels [Qs] and
    tasks [Qt]. *)
Definition texts_satisfy (Qp Qs Qt : pystr -> Prop) (phs : phases_t)
  : Prop :=
  Forall (fun item : pystr * sections_t =>
            Qp (fst item) /\
            Forall (fun sec : pystr * list pystr =>
                      Qs (fst sec) /\ Forall Qt (snd sec))
                   (snd item))
         phs.

(** The loop of a star, by name: [rmatch (Star g r) pos s c k] is
    [star_loop g (rmatch r) k (length s) pos s c]. *)
Section StarLoop.

Variable greedy : bool.
Variable body : nat -> pystr -> captures -> cont -> option captures.
Variable k : cont.

Fixpoint star_loop (fuel pos : nat) (s : pystr) (c : captures)
         {struct fuel} : option captures :=
  match fuel with
  | O => k pos s c
  | S fuel' =>
      let more :=
        body pos s c
          (fun pos' s' c' =>
             if pos <? pos' then star_loop fuel' pos' s' c' else None) in
      if greedy then orelse more (k pos s c)
      else orelse (k pos s c) more
  end.

End StarLoop.

(** The characters that the phase pattern lets follow a label: white
    space and the decorations. *)
Definition trailer (x : char) : bool := isspace x || one_of decorations x.

(** The end of the phase pattern, [(?:\s*[...])*\s*$]. *)
Definition trailer_re : regex :=
  Seq (Star true (Seq (Star true (Chr isspace)) (Chr (one_of decorations))))
 (Seq (Star true (Chr isspace))
      Eol).

(** A statement that runs no command. *)
Definition quiet {A} (m : prog A) : Prop :=
  forall w, spawned (snd (m w)) = spawned w.


(** The issue of a section: none when it has no task. *)
Definition section_issues (phase : pystr) (item : pystr * list pystr)
  : list (pystr * pystr * pystr) :=
  match snd item with
  | [] => []
  | _ :: _ =>
      [(fst (generate_issue_content phase (fst item) (snd item)),
        snd (generate_issue_content phase (fst item) (snd item)),
        phase)]
  end.

(** The issues of a phase: none when the filter skips it. *)
Definition phase_issues (phase_filter : option pystr)
           (item : pystr * sections_t) : list (pystr * pystr * pystr) :=
  if phase_skipped phase_filter (fst item) then []
  else flat_map (section_issues (fst item)) (snd item).

(** All the tasks of a result. *)
Definition all_tasks (phs : phases_t) : list pystr :=
  flat_map (fun item : pystr * sections_t =>
              concat (Dict.values (snd item))) phs.

(** The labels of the phase headers of a document, and a list without
    the later occurrences of its elements. *)
Definition phase_labels (lines : list pystr) : list pystr :=
  flat_map (fun line => match classify line with
                        | PhaseHeader label => [label]
                        | _ => []
                        end) lines.

Definition first_occurrences_from (seen l : list pystr) : list pystr :=
  fold_left (fun seen x => if contains x seen then seen else seen ++ [x])
            l seen.

Definition first_occurrences (l : list pystr) : list pystr :=
  first_occurrences_from [] l.

(** The section maps have no key twice. *)
Definition distinct_sections (phs : phases_t) : Prop :=
  Forall (fun item : pystr * sections_t => NoDup (Dict.keys (snd item))) phs.

(** * Properties *)

Ltac inv H := inversion H; subst; clear H.

(** ** Text *)

Section TextFacts.

Lemma str_eqb_eq (a b : pystr) : str_eqb a b = true <-> a = b.
Proof.
  unfold str_eqb. destruct (list_eq_dec N.eq_dec a b); split; congruence.
Qed.

Lemma str_eqb_refl (a : pystr) : str_eqb a a = true.
Proof. now apply str_eqb_eq. Qed.

Lemma str_eqb_neq (a b : pystr) : a <> b -> str_eqb a b = false.
Proof.
  intros H. destruct (str_eqb a b) eqn:E; [|reflexivity].
  now apply str_eqb_eq in E.
Qed.

Lemma startswith_app (p s : pystr) : startswith p (p ++ s) = true.
Proof.
  induction p as [|a p IH]; simpl; [reflexivity|].
  now rewrite N.eqb_refl.
Qed.

Lemma startswith_prefix (p s : pystr) :
  startswith p s = true -> exists t, s = p ++ t.
Proof.
  revert s. induction p as [|a p IH]; intros s H; simpl in *.
  - now exists s.
  - destruct s as [|b s]; [discriminate|].
    apply andb_true_iff in H as [Hab Hp]. apply N.eqb_eq in Hab. subst b.
    destruct (IH _ Hp) as [t ->]. now exists t.
Qed.

Lemma rstrip_nonspace (c : char) (t : pystr) :
  isspace c = false -> rstrip (c :: t) = c :: rstrip t.
Proof. intros H. simpl. destruct (rstrip t); now rewrite ?H. Qed.

Lemma rstrip_app (a b : pystr) :
  rstrip b <> [] -> rstrip (a ++ b) = a ++ rstrip b.
Proof.
  intros H. induction a as [|c a IH]; simpl; [reflexivity|].
  rewrite IH. destruct (a ++ rstrip b) eqn:E; [|reflexivity].
  apply app_eq_nil in E. tauto.
Qed.

(** What [rstrip] leaves does not end with white space. *)
Lemma rstrip_suffix (s x y : pystr) :
  rstrip s = x ++ y -> forallb isspace y = true -> y = [].
Proof.
  revert x y. induction s as [|c t IH]; intros x y E Hy; simpl in E.
  - symmetry in E. apply app_eq_nil in E. tauto.
  - destruct (rstrip t) as [|d t'] eqn:Et.
    + destruct (isspace c) eqn:Ec.
      * symmetry in E. apply app_eq_nil in E. tauto.
      * destruct x as [|a x]; simpl in E.
        { subst y. simpl in Hy. rewrite Ec in Hy. discriminate. }
        { inv E. symmetry in H1. apply app_eq_nil in H1. tauto. }
    + destruct x as [|a x]; simpl in E.
      * subst y. simpl in Hy. apply andb_true_iff in Hy as [_ Hy].
        specialize (IH [] (d :: t') eq_refl Hy). discriminate.
      * inv E. now apply (IH x y).
Qed.

Lemma rstrip_nil (s : pystr) : rstrip s = [] -> forallb isspace s = true.
Proof.
  induction s as [|c t IH]; simpl; [reflexivity|].
  destruct (rstrip t); [|discriminate].
  destruct (isspace c); [|discriminate]. intros _. now apply IH.
Qed.

Lemma strip_nil (s : pystr) : strip s = [] -> forallb isspace s = true.
Proof.
  unfold strip. induction s as [|c t IH]; simpl; [reflexivity|].
  destruct (isspace c) eqn:Ec; [exact IH|].
  intros H. apply rstrip_nil in H. simpl in H. now rewrite Ec in H.
Qed.

Lemma strip_suffix (s x y : pystr) :
  strip s = x ++ y -> forallb isspace y = true -> y = [].
Proof. unfold strip. apply rstrip_suffix. Qed.

Lemma In_lstrip (x : char) (s : pystr) : In x (lstrip s) -> In x s.
Proof.
  induction s as [|c t IH]; simpl; [tauto|].
  destruct (isspace c); simpl; tauto.
Qed.

Lemma In_rstrip (x : char) (s : pystr) : In x (rstrip s) -> In x s.
Proof.
  induction s as [|c t IH]; simpl; [tauto|].
  destruct (rstrip t) as [|d t'].
  - destruct (isspace c); simpl; tauto.
  - simpl in *. tauto.
Qed.

Lemma In_strip (x : char) (s : pystr) : In x (strip s) -> In x s.
Proof. intros H. now apply In_lstrip, In_rstrip. Qed.

Lemma one_line_strip (s : pystr) : one_line s -> one_line (strip s).
Proof. unfold one_line. intros H Hin. now apply H, In_strip. Qed.

Lemma forallb_dot_one_line (w : pystr) :
  forallb dot w = true -> one_line w.
Proof.
  unfold one_line. intros H Hin.
  rewrite forallb_forall in H. specialize (H _ Hin).
  unfold dot in H. now rewrite N.eqb_refl in H.
Qed.

End TextFacts.

(** ** The matcher finds matches only *)

Section Matcher.

Lemma strip_prefix_spec (l s s' : pystr) :
  strip_prefix l s = Some s' -> s = l ++ s'.
Proof.
  revert s. induction l as [|a l IH]; intros s H; simpl in *.
  - congruence.
  - destruct s as [|b s]; [discriminate|].
    destruct (N.eqb_spec a b); [|discriminate].
    subst b. now rewrite (IH _ H).
Qed.

Lemma firstn_length_app {A} (w s : list A) :
  firstn (length w) (w ++ s) = w.
Proof.
  induction w as [|a w IH]; simpl; [now destruct s|now rewrite IH].
Qed.

Lemma orelse_some {A} (a b : option A) (x : A) :
  orelse a b = Some x -> a = Some x \/ b = Some x.
Proof. destruct a; simpl; auto. Qed.

Lemma rmatch_sound (r : regex) :
  forall pos s c (k : cont) m,
    rmatch r pos s c k = Some m ->
    exists w s' c',
      s = w ++ s' /\ matches r pos w s' c c' /\
      k (pos + length w) s' c' = Some m.
Proof.
  induction r as [| |p|l|r1 IH1 r2 IH2|g r IH|n r IH];
    intros pos s c k m H; simpl in H.
  - destruct pos; [|discriminate].
    exists [], s, c. repeat split; [constructor|exact H].
  - exists [], s, c. rewrite Nat.add_0_r.
    destruct s as [|x [|y s]]; try discriminate.
    + repeat split; [constructor; auto|exact H].
    + destruct (N.eqb_spec x nl); [|discriminate]. subst x.
      repeat split; [constructor; auto|exact H].
  - destruct s as [|x s]; [discriminate|].
    destruct (p x) eqn:Hp; [|discriminate].
    exists [x], s, c. simpl. rewrite Nat.add_1_r.
    repeat split; [now constructor|exact H].
  - destruct (strip_prefix l s) as [s'|] eqn:E; [|discriminate].
    exists l, s', c. repeat split;
      [now apply strip_prefix_spec|constructor|exact H].
  - apply IH1 in H as (w1 & s1 & c1 & -> & M1 & H).
    apply IH2 in H as (w2 & s2 & c2 & -> & M2 & H).
    exists (w1 ++ w2), s2, c2. rewrite length_app, Nat.add_assoc, <- app_assoc.
    repeat split; [|exact H]. econstructor; eassumption.
  - revert H. generalize (length s) as fuel. intros fuel. revert pos s c.
    induction fuel as [|fuel IHf]; intros pos s c H.
    + exists [], s, c. rewrite Nat.add_0_r.
      repeat split; [constructor|exact H].
    + assert (Hk : k pos s c = Some m ->
                   exists w s' c', s = w ++ s' /\
                     matches (Star g r) pos w s' c c' /\
                     k (pos + length w) s' c' = Some m).
      { intros Hk. exists [], s, c. rewrite Nat.add_0_r.
        repeat split; [constructor|exact Hk]. }
      match type of H with
      | (if g then orelse ?more _ else _) = _ =>
          assert (Hm : more = Some m ->
                       exists w s' c', s = w ++ s' /\
                         matches (Star g r) pos w s' c c' /\
                         k (pos + length w) s' c' = Some m)
      end.
      { intros Hm. apply IH in Hm as (w1 & s1 & c1 & -> & M1 & Hm).
        destruct (Nat.ltb_spec pos (pos + length w1)); [|discriminate].
        apply IHf in Hm as (w2 & s2 & c2 & -> & M2 & Hm).
        exists (w1 ++ w2), s2, c2.
        rewrite length_app, Nat.add_assoc, <- app_assoc.
        repeat split; [|exact Hm].
        eapply m_star_more; try eassumption.
        intros ->. simpl in *. lia. }
      destruct g; apply orelse_some in H as [H|H]; auto.
  - apply IH in H as (w & s' & c' & -> & M & H).
    rewrite Nat.add_comm, Nat.add_sub, firstn_length_app in H.
    exists w, s', ((n, w) :: c'). rewrite Nat.add_comm.
    repeat split; [now constructor|exact H].
Qed.

(** [re.match] *)
Lemma re_match_sound (r : regex) (s : pystr) (m : captures) :
  re_match r s = Some m ->
  exists w s', s = w ++ s' /\ matches r 0 w s' [] m.
Proof.
  intros H. apply rmatch_sound in H as (w & s' & c' & -> & M & H).
  inv H. now exists w, s'.
Qed.

(** Without groups, the groups stay. *)
Lemma matches_groupless (r : regex) pos w rest c c' :
  matches r pos w rest c c' -> groupless r = true -> c' = c.
Proof.
  induction 1; simpl; intros G; try reflexivity.
  - apply andb_true_iff in G as [G1 G2].
    rewrite IHmatches2, IHmatches1; auto.
  - discriminate.
  - rewrite IHmatches2, IHmatches1; auto.
Qed.

(** A repeated character class consumes characters of the class. *)
Lemma matches_star_chr g p pos w rest c c' :
  matches (Star g (Chr p)) pos w rest c c' -> forallb p w = true.
Proof.
  remember (Star g (Chr p)) as r eqn:E. induction 1; inv E.
  - reflexivity.
  - rewrite forallb_app, IHmatches2 by reflexivity.
    inv H0. simpl.
    match goal with Hp : p _ = true |- _ => now rewrite Hp end.
Qed.

End Matcher.

(** ** What the three patterns capture *)

Section Patterns.

Ltac inv_matches :=
  repeat match goal with
  | H : matches (Seq _ _) _ _ _ _ _ |- _ => inv H
  | H : matches Bol _ _ _ _ _ |- _ => inv H
  | H : matches Eol _ _ _ _ _ |- _ => inv H
  | H : matches (Lit _) _ _ _ _ _ |- _ => inv H
  | H : matches (Chr _) _ _ _ _ _ |- _ => inv H
  | H : matches (Group _ _) _ _ _ _ _ |- _ => inv H
  end.

(** A phase header is [## ] and a label [Phase <digits>:<text>] with
    at least one character after the colon and no line break. *)
Lemma phase_re_match (s : pystr) (m : captures) :
  re_match phase_re s = Some m ->
  exists d x,
    group 1 m = Some (u "Phase " ++ d ++ colon :: x) /\
    forallb isdecimal d = true /\ x <> [] /\ forallb dot x = true /\
    startswith (u "## ") s = true.
Proof.
  intros H. apply re_match_sound in H as (w & s' & -> & M).
  unfold phase_re, Plus in M. inv_matches.
  repeat match goal with
  | H : matches (Star _ (Chr isdecimal)) _ _ _ _ _ |- _ =>
      pose proof (matches_groupless H eq_refl);
      apply matches_star_chr in H
  | H : matches (Star _ (Chr dot)) _ _ _ _ _ |- _ =>
      pose proof (matches_groupless H eq_refl);
      apply matches_star_chr in H
  | H : matches (Star _ (Chr isspace)) _ _ _ _ _ |- _ =>
      apply matches_groupless in H; [|reflexivity]
  | H : matches (Star _ (Seq _ _)) _ _ _ _ _ |- _ =>
      apply matches_groupless in H; [|reflexivity]
  end.
  subst. simpl.
  match goal with
  | Hd : isdecimal ?a = true, Hx : dot ?b = true |- _ =>
      match goal with
      | Hds : forallb isdecimal ?d = true, Hxs : forallb dot ?x = true |- _ =>
          exists (a :: d), (b :: x); simpl; rewrite Hd, Hx, Hds, Hxs
      end
  end.
  repeat split. discriminate.
Qed.

(** A section header and a task line are the marker and a text without
    a line break, at most followed by one. *)
Lemma marker_re_match (marker s : pystr) (m : captures) :
  re_match (Seq Bol (Seq (Lit marker)
             (Seq (Group 1 (Plus true (Chr dot))) Eol))) s = Some m ->
  exists w tail,
    s = marker ++ w ++ tail /\ (tail = [] \/ tail = [nl]) /\
    w <> [] /\ forallb dot w = true /\ group 1 m = Some w.
Proof.
  intros H. apply re_match_sound in H as (w & s' & -> & M).
  unfold Plus in M. inv_matches.
  match goal with
  | H : matches (Star _ (Chr dot)) _ _ _ _ _ |- _ =>
      pose proof (matches_groupless H eq_refl);
      apply matches_star_chr in H
  end.
  subst. simpl.
  match goal with
  | Hx : dot ?b = true, Hxs : forallb dot ?x = true |- _ =>
      exists (b :: x), s'; simpl; rewrite Hx, Hxs
  end.
  repeat split; try assumption; try discriminate.
  now rewrite app_nil_r, <- app_assoc.
Qed.

End Patterns.

(** ** Dictionaries *)

Section DictFacts.
Variable V : Type.
Implicit Types (d : Dict.dict V) (k : pystr) (v : V).

Lemma get_set_same k v d : Dict.get k (Dict.set k v d) = Some v.
Proof.
  induction d as [|[k' v'] d IH]; simpl.
  - now rewrite str_eqb_refl.
  - destruct (str_eqb k' k) eqn:E; simpl; now rewrite E.
Qed.

Lemma get_set_other k k' v d :
  k <> k' -> Dict.get k' (Dict.set k v d) = Dict.get k' d.
Proof.
  intros N. induction d as [|[k0 v0] d IH]; simpl.
  - now rewrite str_eqb_neq.
  - destruct (str_eqb k0 k) eqn:E; simpl; [|now rewrite IH].
    apply str_eqb_eq in E. subst k0. now rewrite (str_eqb_neq N).
Qed.

Lemma get_In_keys k d : Dict.get k d <> None <-> In k (Dict.keys d).
Proof.
  induction d as [|[k0 v0] d IH]; simpl; [tauto|].
  destruct (str_eqb k0 k) eqn:E.
  - apply str_eqb_eq in E. split; [auto|discriminate].
  - rewrite IH. split; [auto|]. intros [->|H]; [|exact H].
    now rewrite str_eqb_refl in E.
Qed.

(** Assigning keeps the place of a key that is there, and puts a new
    key last. *)
Lemma keys_set k v d :
  Dict.keys (Dict.set k v d) =
  match Dict.get k d with
  | Some _ => Dict.keys d
  | None => Dict.keys d ++ [k]
  end.
Proof.
  induction d as [|[k0 v0] d IH]; simpl; [reflexivity|].
  destruct (str_eqb k0 k) eqn:E; simpl; [reflexivity|].
  rewrite IH. now destruct (Dict.get k d).
Qed.

Lemma NoDup_keys_set k v d :
  NoDup (Dict.keys d) -> NoDup (Dict.keys (Dict.set k v d)).
Proof.
  intros H. rewrite keys_set.
  destruct (Dict.get k d) eqn:E; [exact H|].
  apply NoDup_app; [exact H|repeat constructor; simpl; tauto|].
  intros x Hx [<-|[]]. apply get_In_keys in Hx. congruence.
Qed.

End DictFacts.

(** ** The lines and the loop body *)

Section Lines.

Lemma isspace_P : isspace 80%N = false.
Proof. reflexivity. Qed.

Lemma isspace_colon : isspace colon = false.
Proof. reflexivity. Qed.

Lemma isspace_nl : isspace nl = true.
Proof. reflexivity. Qed.

(** The label of a phase header: it starts with [Phase ], is not empty
    and has no line break. *)
Lemma phase_label_shape (s : pystr) (m : captures) :
  re_match phase_re s = Some m ->
  exists g, group 1 m = Some g /\
            startswith (u "Phase ") (strip g) = true /\
            one_line (strip g).
Proof.
  intros H. apply phase_re_match in H as (d & x & G & Hd & Hx & Hdot & _).
  exists (u "Phase " ++ d ++ colon :: x). split; [exact G|]. split.
  - unfold strip. change (lstrip (u "Phase " ++ d ++ colon :: x))
      with (u "Phase " ++ d ++ colon :: x).
    rewrite rstrip_app.
    + apply startswith_app.
    + rewrite rstrip_app.
      * intros E. apply app_eq_nil in E as [_ E].
        rewrite rstrip_nonspace in E by apply isspace_colon. discriminate.
      * rewrite rstrip_nonspace by apply isspace_colon. discriminate.
  - apply one_line_strip. intros Hin.
    change (In nl (u "Phase " ++ d ++ colon :: x)) in Hin.
    apply in_app_or in Hin as [Hin|Hin].
    + simpl in Hin. unfold nl in Hin.
      repeat destruct Hin as [Hin|Hin]; try discriminate; auto.
    + apply in_app_or in Hin as [Hin|[Hin|Hin]].
      * rewrite forallb_forall in Hd. specialize (Hd _ Hin). discriminate.
      * discriminate.
      * now apply forallb_dot_one_line in Hdot.
Qed.

(** The text after a marker, on a stripped line: not empty once it is
    stripped, and without a line break. *)
Lemma marker_label_shape (marker line : pystr) (m : captures) :
  re_match (Seq Bol (Seq (Lit marker)
             (Seq (Group 1 (Plus true (Chr dot))) Eol))) (strip line)
    = Some m ->
  exists w, strip line = marker ++ w /\ group 1 m = Some w /\
            strip w <> [] /\ one_line (strip w).
Proof.
  intros H. apply marker_re_match in H as (w & tail & E & T & Hw & Hdot & G).
  assert (tail = []) as ->.
  { destruct T as [->| ->]; [reflexivity|].
    rewrite app_assoc in E. now apply strip_suffix in E. }
  rewrite app_nil_r in E. exists w. repeat split; try assumption.
  - intros Hs. apply strip_nil in Hs. apply strip_suffix in E; auto.
  - now apply one_line_strip, forallb_dot_one_line.
Qed.

Lemma section_not_task (s : pystr) (m : captures) :
  re_match section_re s = Some m -> re_match task_re s = None.
Proof.
  intros H. apply marker_re_match in H as (w & tail & -> & _).
  reflexivity.
Qed.

(** The loop body does what the kind of the line says. *)
Lemma step_classify (st : pstate) (line : pystr) :
  step st line = step_kind st (classify line).
Proof.
  unfold step, classify.
  destruct (re_match phase_re (strip line)) as [m|] eqn:Ep.
  { apply phase_label_shape in Ep as (g & G & _).
    unfold group_strip, labelled. now rewrite G. }
  destruct (re_match section_re (strip line)) as [m|] eqn:Es.
  { rewrite (section_not_task _ Es).
    apply marker_label_shape in Es as (w & _ & G & _).
    unfold group_strip, labelled. rewrite G. simpl.
    now destruct (truthy (current_phase st)). }
  destruct (re_match task_re (strip line)) as [m|] eqn:Et.
  { apply marker_label_shape in Et as (w & _ & G & _).
    unfold group_strip, labelled. rewrite G. simpl.
    destruct (truthy (current_phase st)); [|reflexivity].
    now destruct (truthy (current_section st)). }
  reflexivity.
Qed.

Lemma classify_phase (line label : pystr) :
  classify line = PhaseHeader label ->
  startswith (u "Phase ") label = true /\ one_line label.
Proof.
  unfold classify.
  destruct (re_match phase_re (strip line)) as [m|] eqn:Ep.
  - apply phase_label_shape in Ep as (g & G & H).
    unfold labelled. rewrite G. intros E. now inv E.
  - destruct (re_match section_re (strip line)) as [m|] eqn:Es.
    { apply marker_label_shape in Es as (w & _ & G & _).
      unfold labelled. rewrite G. discriminate. }
    destruct (re_match task_re (strip line)) as [m|] eqn:Et;
      [|discriminate].
    apply marker_label_shape in Et as (w & _ & G & _).
    unfold labelled. rewrite G. discriminate.
Qed.

Lemma classify_section (line label : pystr) :
  classify line = SectionHeader label -> label <> [] /\ one_line label.
Proof.
  unfold classify.
  destruct (re_match phase_re (strip line)) as [m|] eqn:Ep.
  - apply phase_label_shape in Ep as (g & G & H).
    unfold labelled. rewrite G. discriminate.
  - destruct (re_match section_re (strip line)) as [m|] eqn:Es.
    { apply marker_label_shape in Es as (w & _ & G & H).
      unfold labelled. rewrite G. intros E. now inv E. }
    destruct (re_match task_re (strip line)) as [m|] eqn:Et;
      [|discriminate].
    apply marker_label_shape in Et as (w & _ & G & _).
    unfold labelled. rewrite G. discriminate.
Qed.

Lemma classify_task (line task : pystr) :
  classify line = TaskLine task -> one_line task.
Proof.
  unfold classify.
  destruct (re_match phase_re (strip line)) as [m|] eqn:Ep.
  - apply phase_label_shape in Ep as (g & G & H).
    unfold labelled. rewrite G. discriminate.
  - destruct (re_match section_re (strip line)) as [m|] eqn:Es.
    { apply marker_label_shape in Es as (w & _ & G & H).
      unfold labelled. rewrite G. discriminate. }
    destruct (re_match task_re (strip line)) as [m|] eqn:Et;
      [|discriminate].
    apply marker_label_shape in Et as (w & _ & G & H).
    unfold labelled. rewrite G. intros E. now inv E.
Qed.

End Lines.

(** ** The loop over the lines *)

Section Loop.

Lemma run_lines_app (st : pstate) (l1 l2 : list pystr) :
  run_lines st (l1 ++ l2) = (st' <- run_lines st l1 ;; run_lines st' l2).
Proof.
  revert st. induction l1 as [|l l1 IH]; intros st; simpl; [reflexivity|].
  destruct (step st l); simpl; [apply IH|reflexivity].
Qed.

Lemma rbind_ok {A B} (r : result A) (f : A -> result B) (b : B) :
  rbind r f = Ok b -> exists a, r = Ok a /\ f a = Ok b.
Proof. destruct r; simpl; [eauto|discriminate]. Qed.

Lemma getitem_ok {V} (k : pystr) (d : Dict.dict V) (v : V) :
  Dict.getitem k d = Ok v <-> Dict.get k d = Some v.
Proof.
  unfold Dict.getitem. destruct (Dict.get k d); split; congruence.
Qed.

Lemma truthy_some (s : pystr) : s <> [] -> truthy (Some s) = Some s.
Proof. destruct s; simpl; congruence. Qed.

Lemma truthy_inv (v : option pystr) (s : pystr) :
  truthy v = Some s -> v = Some s.
Proof.
  destruct v as [t|]; simpl; [|discriminate].
  destruct (nonempty t); congruence.
Qed.

(** The keys of the result are distinct: a label has one entry. *)
Lemma step_NoDup (st st' : pstate) (line : pystr) :
  step st line = Ok st' ->
  NoDup (Dict.keys st.(phases)) -> NoDup (Dict.keys st'.(phases)).
Proof.
  rewrite step_classify. destruct (classify line); simpl.
  - intros E. inv E. apply NoDup_keys_set.
  - destruct (truthy (current_phase st)); [|now intros E; inv E].
    intros E. apply rbind_ok in E as (secs & _ & E). inv E.
    apply NoDup_keys_set.
  - destruct (truthy (current_phase st)); [|now intros E; inv E].
    destruct (truthy (current_section st)); [|now intros E; inv E].
    intros E. apply rbind_ok in E as (secs & _ & E).
    apply rbind_ok in E as (tasks & _ & E). inv E.
    apply NoDup_keys_set.
  - now intros E; inv E.
Qed.

Lemma run_lines_NoDup (lines : list pystr) (st st' : pstate) :
  run_lines st lines = Ok st' ->
  NoDup (Dict.keys st.(phases)) -> NoDup (Dict.keys st'.(phases)).
Proof.
  revert st. induction lines as [|l lines IH]; intros st; simpl.
  - now intros E; inv E.
  - intros E. apply rbind_ok in E as (st1 & E1 & E).
    intros H. eapply IH; [exact E|]. eapply step_NoDup; eassumption.
Qed.



End Loop.

(** ** parse_checklist: the current section across phase headers *)

(** C1 (the parser never fails on any line content): the code raises.
    On a checklist with a task line after the header of a second phase
    and before its first section, [parse_checklist] ends with a
    [KeyError] for the section that was current in the first phase. *)
Theorem parse_checklist_raises_KeyError :
  parse_checklist (one_file (u "checklist.md") stale_section_doc)
                  (u "checklist.md")
  = Raise (KeyError (u "S")).
Proof. vm_compute. reflexivity. Qed.

(** C2 (a phase header clears the current section, so that a task
    before the first section of the phase is ignored): the branch of
    the phase header leaves [current_section] as it was, for every
    state and every phase header, and the task line after the second
    header of the sample is not ignored but raises. *)
Theorem phase_header_keeps_current_section :
  (forall st line label,
      classify line = PhaseHeader label ->
      exists st', step st line = Ok st' /\
                  current_section st' = current_section st) /\
  (exists st,
      run_lines initial
        [u "## Phase 1: A"; u "### S"; u "## Phase 2: B"] = Ok st /\
      current_section st = Some (u "S") /\
      step st (u "- [ ] task") = Raise (KeyError (u "S"))).
Proof.
  split.
  - intros st line label C. rewrite step_classify, C. simpl. eauto.
  - eexists. split; [vm_compute; reflexivity|].
    split; vm_compute; reflexivity.
Qed.

Lemma phase_header_keeps_current_section_witness :
  exists st',
    step {| phases := []; current_phase := None;
            current_section := Some (u "S") |} (u "## Phase 2: B")
    = Ok st' /\
    current_section st' = Some (u "S").
Proof.
  apply (proj1 phase_header_keeps_current_section
           {| phases := []; current_phase := None;
              current_section := Some (u "S") |}
           (u "## Phase 2: B") (u "Phase 2: B")).
  vm_compute. reflexivity.
Defined.

(** ** parse_checklist: repeated phase labels *)

(** C7: a phase header whose label is already a key leaves one entry
    for the label, at its old place, with an empty section map; the
    other entries stay. *)
Theorem repeated_phase_label_resets (pre : list pystr) (line label : pystr)
        (phs : phases_t) :
  parse_lines pre = Ok phs ->
  classify line = PhaseHeader label ->
  parse_lines (pre ++ [line]) = Ok (Dict.set label [] phs) /\
  Dict.get label (Dict.set label [] phs) = Some [] /\
  NoDup (Dict.keys (Dict.set label [] phs)) /\
  (In label (Dict.keys phs) ->
   Dict.keys (Dict.set label [] phs) = Dict.keys phs) /\
  (forall other, other <> label ->
                 Dict.get other (Dict.set label [] phs) = Dict.get other phs).
Proof.
  unfold parse_lines. intros E C.
  apply rbind_ok in E as (st & E & Ephs). inv Ephs.
  repeat split.
  - rewrite run_lines_app, E. simpl. rewrite step_classify, C. reflexivity.
  - apply get_set_same.
  - apply NoDup_keys_set.
    eapply run_lines_NoDup; [exact E|constructor].
  - intros Hin. rewrite keys_set. apply get_In_keys in Hin.
    now destruct (Dict.get label _).
  - intros other N. apply get_set_other. congruence.
Qed.

Lemma repeated_phase_label_resets_witness :
  let pre := [u "## Phase 1: A"; u "### S"; u "- [ ] t"] in
  let phs := [(u "Phase 1: A", [(u "S", [u "t"])])] in
  parse_lines (pre ++ [u "## Phase 1: A"]) = Ok [(u "Phase 1: A", [])].
Proof.
  intros pre phs.
  apply (@repeated_phase_label_resets pre (u "## Phase 1: A")
            (u "Phase 1: A") phs);
    vm_compute; reflexivity.
Defined.

(** ** parse_checklist: lines with more than three marks *)

(** C10 as stated fails: with a current phase, [#### Foo] makes no
    section, the state stays as it is. *)
Lemma four_marks_make_no_section :
  let st := {| phases := [(u "Phase 1: A", [])];
               current_phase := Some (u "Phase 1: A");
               current_section := None |} in
  ~ (exists st' label, step st (u "#### Foo") = Ok st' /\
                       current_section st' = Some label).
Proof.
  intros st (st' & label & E & C). vm_compute in E. inv E. discriminate.
Qed.

(** C10, amended: a line that begins, once stripped, with four or more
    [#] marks is none of the three kinds and is skipped; the section
    pattern needs three marks and a space, and marks after that space
    stay in the label. *)
Theorem four_marks_are_skipped :
  (forall st line,
      startswith (u "####") (strip line) = true ->
      classify line = Other /\ step st line = Ok st) /\
  classify (u "### # Foo") = SectionHeader (u "# Foo").
Proof.
  split; [|vm_compute; reflexivity].
  intros st line H. apply startswith_prefix in H as (t & E).
  assert (C : classify line = Other).
  { unfold classify. rewrite E. reflexivity. }
  split; [exact C|]. now rewrite step_classify, C.
Qed.

Lemma four_marks_are_skipped_witness :
  classify (u "  #### Foo") = Other /\
  step initial (u "  #### Foo") = Ok initial.
Proof.
  apply (proj1 four_marks_are_skipped). vm_compute. reflexivity.
Defined.

(** ** generate_issue_content *)

Section Content.

Lemma split_app_sep (sep : char) (a b : pystr) :
  ~ In sep a -> split sep (a ++ sep :: b) = a :: split sep b.
Proof.
  induction a as [|c a IH]; intros H; simpl.
  - now rewrite N.eqb_refl.
  - destruct (N.eqb_spec c sep) as [->|N]; [simpl in H; tauto|].
    rewrite IH; [reflexivity|]. simpl in H. tauto.
Qed.

Lemma one_line_app (a b : pystr) :
  one_line a -> one_line b -> one_line (a ++ b).
Proof.
  unfold one_line. intros Ha Hb H. apply in_app_or in H. tauto.
Qed.

Lemma unlines_cons (l : pystr) (ls : list pystr) :
  unlines (l :: ls) = l ++ [nl] ++ unlines ls.
Proof. unfold unlines. cbn [flat_map]. now rewrite <- app_assoc. Qed.

Lemma split_unlines (ls : list pystr) :
  Forall one_line ls -> split nl (unlines ls) = ls ++ [[]].
Proof.
  induction 1 as [|l ls Hl _ IH]; [reflexivity|].
  rewrite unlines_cons. cbn [app].
  rewrite split_app_sep by exact Hl. now rewrite IH.
Qed.

Lemma fold_left_tasks (tasks : list pystr) (body : pystr) :
  fold_left (fun body task => body ++ u "- [ ] " ++ task ++ [nl]) tasks body
  = body ++ unlines (map (app (u "- [ ] ")) tasks).
Proof.
  revert body. induction tasks as [|t tasks IH]; intros body.
  - cbn. now rewrite app_nil_r.
  - cbn [fold_left map]. rewrite IH, unlines_cons, <- !app_assoc.
    reflexivity.
Qed.

Lemma unlines_app (a b : list pystr) :
  unlines (a ++ b) = unlines a ++ unlines b.
Proof. unfold unlines. apply flat_map_app. Qed.

(** The four lines before the tasks and the eight after them. *)
Lemma body_head_lines (phase section : pystr) :
  body_head phase section =
  unlines [u "## Description";
           u "Implement the following tasks for **" ++ section ++
             u "** in **" ++ phase ++ u "**.";
           []; u "## Tasks"].
Proof.
  unfold body_head, unlines. cbn [flat_map].
  rewrite <- !app_assoc. reflexivity.
Qed.

Lemma body_tail_lines :
  body_tail =
  unlines [[]; u "## Context";
           u "This issue is part of the implementation checklist for the Proxy Desktop Browser project.";
           []; u "## Acceptance Criteria";
           u "- All tasks listed above are completed";
           u "- Code is tested and working";
           u "- Documentation is updated if needed"].
Proof. reflexivity. Qed.

Lemma body_lines (phase section : pystr) (tasks : list pystr) :
  snd (generate_issue_content phase section tasks) =
  unlines ([u "## Description";
            u "Implement the following tasks for **" ++ section ++
              u "** in **" ++ phase ++ u "**.";
            []; u "## Tasks"]
           ++ map (app (u "- [ ] ")) tasks
           ++ [[]; u "## Context";
               u "This issue is part of the implementation checklist for the Proxy Desktop Browser project.";
               []; u "## Acceptance Criteria";
               u "- All tasks listed above are completed";
               u "- Code is tested and working";
               u "- Documentation is updated if needed"]).
Proof.
  unfold generate_issue_content. cbn [snd].
  rewrite fold_left_tasks, body_head_lines, body_tail_lines.
  rewrite !unlines_app. symmetry. apply app_assoc.
Qed.

Lemma filter_checkbox_tasks (tasks : list pystr) :
  filter (startswith (u "- [ ] ")) (map (app (u "- [ ] ")) tasks)
  = map (app (u "- [ ] ")) tasks.
Proof.
  induction tasks as [|t tasks IH]; [reflexivity|].
  cbn [map filter]. rewrite startswith_app. now rewrite IH.
Qed.

End Content.

(** C5: the title is the phase label up to its first colon, in square
    brackets, a space and the section label. *)
Theorem title_drops_phase_text (before after section : pystr)
        (tasks : list pystr) :
  ~ In colon before ->
  fst (generate_issue_content (before ++ colon :: after) section tasks)
  = u "[" ++ before ++ u "] " ++ section
  /\ fst (generate_issue_content (u "Phase 12: Foo Bar")
                                 (u "Widget Support") tasks)
     = u "[Phase 12] Widget Support".
Proof.
  intros H. split; [|reflexivity].
  unfold generate_issue_content. cbn [fst].
  now rewrite split_app_sep.
Qed.

Lemma title_drops_phase_text_witness :
  fst (generate_issue_content (u "Phase 3" ++ colon :: u " Networking Layer")
                              (u "Connection Pool") [u "t"])
  = u "[" ++ u "Phase 3" ++ u "] " ++ u "Connection Pool".
Proof.
  apply (@title_drops_phase_text (u "Phase 3") (u " Networking Layer")
           (u "Connection Pool") [u "t"]).
  vm_compute. intros H. repeat destruct H as [H|H]; try discriminate; auto.
Defined.

(** C6 as stated fails: a task text with a line break that is followed
    by a checkbox marker gives two checkbox lines for one task. *)
Lemma checkbox_lines_of_broken_task :
  let tasks := [u "a" ++ [nl] ++ u "- [ ] b"] in
  length (checkbox_lines
            (snd (generate_issue_content (u "Phase 1: A") (u "S") tasks)))
  <> length tasks.
Proof. vm_compute. discriminate. Qed.

(** C6, amended: when the phase label, the section label and the tasks
    have no line break, the checkbox lines of the body are the tasks,
    each after [- [ ] ], in their order. *)
Theorem checkbox_lines_are_the_tasks (phase section : pystr)
        (tasks : list pystr) :
  one_line phase -> one_line section -> Forall one_line tasks ->
  checkbox_lines (snd (generate_issue_content phase section tasks))
  = map (app (u "- [ ] ")) tasks.
Proof.
  intros Hp Hs Ht. unfold checkbox_lines, text_lines.
  rewrite body_lines, split_unlines.
  - rewrite !filter_app, filter_checkbox_tasks.
    transitivity (([] ++ map (app (u "- [ ] ")) tasks ++ []) ++ []);
      [reflexivity|now rewrite !app_nil_r].
  - assert (L : forall s, forallb dot s = true -> one_line s)
      by apply forallb_dot_one_line.
    apply Forall_app. split; [|apply Forall_app; split].
    + repeat constructor; try (apply L; reflexivity).
      repeat apply one_line_app; try (apply L; reflexivity); assumption.
    + apply Forall_map. eapply Forall_impl; [|exact Ht].
      intros t H. apply one_line_app; [apply L; reflexivity|exact H].
    + repeat constructor; apply L; reflexivity.
Qed.

Lemma checkbox_lines_are_the_tasks_witness :
  checkbox_lines
    (snd (generate_issue_content (u "Phase 1: A") (u "S") [u "a"; u "b"]))
  = [u "- [ ] a"; u "- [ ] b"].
Proof.
  apply (@checkbox_lines_are_the_tasks (u "Phase 1: A") (u "S")
           [u "a"; u "b"]).
  - apply forallb_dot_one_line. reflexivity.
  - apply forallb_dot_one_line. reflexivity.
  - repeat constructor; apply forallb_dot_one_line; reflexivity.
Defined.

(** ** main: the phase filter *)



(** ** main: submissions *)

Section Submissions.

Variable gh : tracker.







End Submissions.




(** ** main: the exit status *)

Section Returns.







End Returns.

(** ** main: the commands *)

Section Quiet.

Lemma quiet_ret {A} (a : A) : quiet (ret a).
Proof. intros w. reflexivity. Qed.

Lemma quiet_lift {A} (r : result A) : quiet (lift r).
Proof. intros w. reflexivity. Qed.

Lemma quiet_print (s : pystr) : quiet (print s).
Proof. intros w. reflexivity. Qed.

Lemma quiet_bind {A B} (m : prog A) (f : A -> prog B) :
  quiet m -> (forall a, quiet (f a)) -> quiet (bind m f).
Proof.
  intros Hm Hf w. unfold bind. specialize (Hm w).
  destruct (m w) as [[a|e] w1]; cbn [snd] in *; [|exact Hm].
  now rewrite Hf.
Qed.

Lemma quiet_for_fold {A S} (l : list A) (f : S -> A -> prog S) :
  (forall s x, quiet (f s x)) -> forall s, quiet (for_fold l s f).
Proof.
  intros Hf. induction l as [|x l IH]; intros s; cbn [for_fold].
  - apply quiet_ret.
  - apply quiet_bind; [apply Hf|exact IH].
Qed.

Lemma quiet_for_each {A} (l : list A) (f : A -> prog unit) :
  (forall x, quiet (f x)) -> quiet (for_each l f).
Proof. intros Hf. unfold for_each. now apply quiet_for_fold. Qed.

Lemma quiet_usage : quiet usage.
Proof.
  unfold usage.
  repeat (apply quiet_bind; [apply quiet_print|intros _]).
  apply quiet_lift.
Qed.

Lemma quiet_list_summary (phs : phases_t) : quiet (list_summary phs).
Proof.
  unfold list_summary.
  apply quiet_bind; [apply quiet_print|intros _].
  apply quiet_bind.
  - apply quiet_for_fold. intros total [phase sections].
    apply quiet_bind; [apply quiet_print|intros _].
    apply quiet_bind; [|intros _; apply quiet_ret].
    apply quiet_for_each. intros [section [|t tasks]];
      [apply quiet_ret|apply quiet_print].
  - intros total.
    apply quiet_bind; [apply quiet_print|intros _].
    apply quiet_print.
Qed.

(** The numbered list of the titles. *)
Lemma quiet_numbered (issues : list (pystr * pystr * pystr)) (i : nat) :
  quiet (for_fold issues i
           (fun i (issue : pystr * pystr * pystr) =>
              let '(title, _, _) := issue in
              print (str_of_nat i ++ u ". " ++ title) >> ret (S i))).
Proof.
  apply quiet_for_fold. intros j [[title body] phase].
  apply quiet_bind; [apply quiet_print|intros _; apply quiet_ret].
Qed.





End Quiet.




(** ** parse_checklist: the tasks of a section *)

Section SectionTasks.

Variables P S : pystr.
Hypothesis P_not_empty : P <> [].

Lemma entry_get (phs : phases_t) (T : list pystr) :
  entry phs P S = Some T ->
  exists secs, Dict.get P phs = Some secs /\ Dict.get S secs = Some T.
Proof.
  unfold entry. destruct (Dict.get P phs) as [secs|]; [eauto|discriminate].
Qed.

Lemma entry_set_other_phase (phs : phases_t) (Q : pystr) (secs : sections_t) :
  Q <> P -> entry (Dict.set Q secs phs) P S = entry phs P S.
Proof. intros N. unfold entry. now rewrite get_set_other. Qed.

Lemma entry_set_other_section (phs : phases_t) (secs : sections_t)
      (S' : pystr) (T : list pystr) :
  S' <> S ->
  entry (Dict.set P (Dict.set S' T secs) phs) P S = Dict.get S secs.
Proof.
  intros N. unfold entry. rewrite get_set_same. now apply get_set_other.
Qed.

Lemma entry_set_same (phs : phases_t) (secs : sections_t) (T : list pystr) :
  entry (Dict.set P (Dict.set S T secs) phs) P S = Some T.
Proof. unfold entry. rewrite get_set_same. apply get_set_same. Qed.

(** Outside the phase [P], its entries stay. *)
Lemma step_outside_phase (st st' : pstate) (line : pystr) :
  current_phase st <> Some P -> classify line <> PhaseHeader P ->
  step st line = Ok st' ->
  current_phase st' <> Some P /\
  entry (phases st') P S = entry (phases st) P S.
Proof.
  intros Hcp Hl. rewrite step_classify.
  destruct (classify line) as [Q|S'|t|] eqn:C; cbn [step_kind].
  - intros E. inv E. cbn. split; [congruence|].
    apply entry_set_other_phase. congruence.
  - destruct (truthy (current_phase st)) as [cp|] eqn:T;
      [|intros E; inv E; auto].
    apply truthy_inv in T. intros E.
    apply rbind_ok in E as (secs & _ & E). inv E. cbn.
    split; [exact Hcp|]. apply entry_set_other_phase. congruence.
  - destruct (truthy (current_phase st)) as [cp|] eqn:T;
      [|intros E; inv E; auto].
    apply truthy_inv in T.
    destruct (truthy (current_section st)) as [cs|];
      [|intros E; inv E; auto].
    intros E. apply rbind_ok in E as (secs & _ & E).
    apply rbind_ok in E as (tasks & _ & E). inv E. cbn.
    split; [exact Hcp|]. apply entry_set_other_phase. congruence.
  - intros E. inv E. auto.
Qed.

Lemma run_outside_phase (lines : list pystr) :
  forall st st',
    (forall l, In l lines -> classify l <> PhaseHeader P) ->
    current_phase st <> Some P ->
    run_lines st lines = Ok st' ->
    entry (phases st') P S = entry (phases st) P S.
Proof.
  induction lines as [|l lines IH]; intros st st' Hl Hcp E; cbn in E.
  - now inv E.
  - apply rbind_ok in E as (st1 & E1 & E).
    apply step_outside_phase in E1 as [Hcp1 <-];
      [|exact Hcp|apply Hl; now left].
    eapply IH; [|exact Hcp1|exact E].
    intros l' Hin. apply Hl. now right.
Qed.

(** In the phase [P] and in another section than [S], or at a header
    that is not the one of [S], the entry stays; afterwards the
    current section is not [S] as long as the phase is [P]. *)
Lemma step_inside_phase (st st' : pstate) (line : pystr) (T : list pystr) :
  current_phase st = Some P ->
  current_section st <> Some S \/ is_header line = true ->
  classify line <> PhaseHeader P -> classify line <> SectionHeader S ->
  entry (phases st) P S = Some T ->
  step st line = Ok st' ->
  entry (phases st') P S = Some T /\
  (current_phase st' <> Some P \/
   current_phase st' = Some P /\ current_section st' <> Some S).
Proof.
  intros Hcp Hcs Hp Hs He. rewrite step_classify. unfold is_header in Hcs.
  destruct (entry_get _ He) as (secs & Gp & Gs).
  destruct (classify line) as [Q|S'|t|] eqn:C; cbn [step_kind].
  - intros E. inv E. cbn. split; [|left; congruence].
    rewrite entry_set_other_phase; [exact He|congruence].
  - rewrite Hcp, (truthy_some P_not_empty). unfold Dict.getitem.
    unfold phases_t, sections_t in *. rewrite Gp. cbn.
    intros E. inv E. cbn. split; [|right; split; congruence].
    rewrite entry_set_other_section; [exact Gs|congruence].
  - rewrite Hcp, (truthy_some P_not_empty).
    destruct Hcs as [Hcs|Hcs]; [|discriminate].
    destruct (truthy (current_section st)) as [cs|] eqn:Tc;
      [|intros E; inv E; auto].
    apply truthy_inv in Tc. unfold Dict.getitem at 1.
    unfold phases_t, sections_t in *. rewrite Gp. cbn [rbind].
    intros E. apply rbind_ok in E as (tasks & _ & E). inv E. cbn.
    split; [|right; split; congruence].
    rewrite entry_set_other_section; [exact Gs|congruence].
  - destruct Hcs as [Hcs|Hcs]; [|discriminate].
    intros E. inv E. auto.
Qed.

Lemma same_phase_cons (l : pystr) (lines : list pystr) :
  is_phase_header l = false ->
  same_phase (l :: lines) = l :: same_phase lines.
Proof. intros H. cbn. now rewrite H. Qed.

Lemma run_inside_phase (lines : list pystr) (T : list pystr) :
  forall st st',
    (forall l, In l lines -> classify l <> PhaseHeader P) ->
    (forall l, In l (same_phase lines) -> classify l <> SectionHeader S) ->
    current_phase st = Some P ->
    current_section st <> Some S \/
      match lines with [] => True | l :: _ => is_header l = true end ->
    entry (phases st) P S = Some T ->
    run_lines st lines = Ok st' ->
    entry (phases st') P S = Some T.
Proof.
  induction lines as [|l lines IH]; intros st st' Hp Hs Hcp Hcs He E;
    cbn in E.
  - now inv E.
  - apply rbind_ok in E as (st1 & E1 & E).
    assert (Hpl : classify l <> PhaseHeader P) by (apply Hp; now left).
    destruct (is_phase_header l) eqn:Hh.
    + unfold is_phase_header in Hh.
      destruct (classify l) as [Q| | |] eqn:C; try discriminate.
      rewrite step_classify, C in E1. inv E1.
      rewrite <- He, <- (entry_set_other_phase (phases st) (Q := Q) [])
        by congruence.
      apply (run_outside_phase lines
               {| phases := Dict.set Q [] (phases st);
                  current_phase := Some Q;
                  current_section := current_section st |});
        [|cbn; congruence|exact E].
      intros l' Hin. apply Hp. now right.
    + rewrite same_phase_cons in Hs by exact Hh.
      eapply step_inside_phase in E1 as [He1 Hst1];
        [|exact Hcp|tauto|exact Hpl|apply Hs; now left|exact He].
      destruct Hst1 as [Hcp1|[Hcp1 Hcs1]].
      * rewrite <- He1. apply (run_outside_phase lines st1);
          [|exact Hcp1|exact E].
        intros l' Hin. apply Hp. now right.
      * apply (IH st1); auto.
        { intros l' Hin. apply Hp. now right. }
        { intros l' Hin. apply Hs. now right. }
Qed.

End SectionTasks.

Section SectionBody.

Variables P S : pystr.
Hypothesis P_not_empty : P <> [].
Hypothesis S_not_empty : S <> [].

(** Up to the next phase header the phase stays current and keeps its
    entry. *)
Lemma run_same_phase (lines : list pystr) :
  forall st st',
    (forall l, In l lines -> is_phase_header l = false) ->
    current_phase st = Some P ->
    Dict.get P (phases st) <> None ->
    run_lines st lines = Ok st' ->
    current_phase st' = Some P /\ Dict.get P (phases st') <> None.
Proof.
  induction lines as [|l lines IH]; intros st st' Hl Hcp Hg E; cbn in E.
  - inv E. auto.
  - apply rbind_ok in E as (st1 & E1 & E).
    assert (Hh : is_phase_header l = false) by (apply Hl; now left).
    assert (H1 : current_phase st1 = Some P /\
                 Dict.get P (phases st1) <> None).
    { rewrite step_classify in E1. unfold is_phase_header in Hh.
      destruct (classify l) as [Q|S'|t|]; cbn [step_kind] in E1.
      - discriminate.
      - rewrite Hcp, (truthy_some P_not_empty) in E1.
        apply rbind_ok in E1 as (secs & _ & E1). inv E1. cbn.
        now rewrite get_set_same.
      - rewrite Hcp, (truthy_some P_not_empty) in E1.
        destruct (truthy (current_section st)); [|inv E1; auto].
        apply rbind_ok in E1 as (secs & _ & E1).
        apply rbind_ok in E1 as (tasks & _ & E1). inv E1. cbn.
        now rewrite get_set_same.
      - inv E1. auto. }
    destruct H1 as [Hcp1 Hg1]. apply (IH st1); auto.
    intros l' Hin. apply Hl. now right.
Qed.

(** In the section the unchecked tasks are appended, in their order. *)
Lemma run_section_body (body : list pystr) :
  forall st st' acc,
    (forall l, In l body -> is_header l = false) ->
    current_phase st = Some P -> current_section st = Some S ->
    entry (phases st) P S = Some acc ->
    run_lines st body = Ok st' ->
    current_phase st' = Some P /\ current_section st' = Some S /\
    entry (phases st') P S = Some (acc ++ unchecked_tasks body).
Proof.
  induction body as [|l body IH]; intros st st' acc Hl Hcp Hcs He E;
    cbn in E.
  - inv E. cbn. now rewrite app_nil_r.
  - apply rbind_ok in E as (st1 & E1 & E).
    assert (Hh : is_header l = false) by (apply Hl; now left).
    assert (Hb : forall l', In l' body -> is_header l' = false)
      by (intros l' Hin; apply Hl; now right).
    rewrite step_classify in E1. unfold is_header in Hh.
    change (unchecked_tasks (l :: body))
      with (match classify l with TaskLine t => [t] | _ => [] end
            ++ unchecked_tasks body).
    destruct (classify l) as [Q|S'|t|]; cbn [step_kind] in E1;
      try discriminate.
    + rewrite Hcp, Hcs, (truthy_some P_not_empty),
        (truthy_some S_not_empty) in E1.
      destruct (entry_get _ _ _ He) as (secs & Gp & Gs).
      unfold Dict.getitem in E1. unfold phases_t, sections_t in *.
      rewrite Gp in E1. cbn [rbind] in E1. rewrite Gs in E1.
      cbn [rbind] in E1. inv E1.
      rewrite app_assoc.
      eapply IH; [exact Hb| | | |exact E]; cbn; try reflexivity.
      apply entry_set_same.
    + inv E1. cbn [app]. eapply IH; eauto.
Qed.

End SectionBody.

Lemma phase_named_not_empty (label : pystr) : phase_named label -> label <> [].
Proof. intros H ->. discriminate. Qed.

Lemma is_checked_other (line : pystr) :
  is_checked line = true -> classify line = Other.
Proof.
  unfold is_checked, classify.
  destruct (strip_prefix (u "- [") (strip line)) as [[|c rest]|] eqn:E;
    try discriminate.
  apply strip_prefix_spec in E. rewrite E. intros H.
  apply negb_true_iff in H.
  change (re_match phase_re (u "- [" ++ c :: rest)) with (@None captures).
  change (re_match section_re (u "- [" ++ c :: rest)) with (@None captures).
  destruct (re_match task_re (u "- [" ++ c :: rest)) as [m|] eqn:Et;
    [|reflexivity].
  apply marker_re_match in Et as (w & tail & Es & _).
  cbn in Es. inv Es. unfold sp in H. now rewrite N.eqb_refl in H.
Qed.

(** C4 as stated fails: a task of a section whose label comes again in
    the same phase is not in the entry of the section. *)
Lemma task_lost_to_repeated_label :
  ~ (forall pre ph P mid sh S body post phs t,
        classify ph = PhaseHeader P ->
        (forall l, In l mid -> is_phase_header l = false) ->
        classify sh = SectionHeader S ->
        (forall l, In l body -> is_header l = false) ->
        parse_lines (pre ++ ph :: mid ++ sh :: body ++ post) = Ok phs ->
        In t (unchecked_tasks body) ->
        exists tasks, entry phs P S = Some tasks /\ In t tasks).
Proof.
  intros H.
  specialize (H [] (u "## Phase 1: A") (u "Phase 1: A") []
                (u "### S") (u "S") [u "- [ ] t1"] [u "### S"]
                [(u "Phase 1: A", [(u "S", [])])] (u "t1")).
  destruct H as (tasks & E & Hin).
  - vm_compute. reflexivity.
  - intros l [].
  - vm_compute. reflexivity.
  - intros l [<-|[]]. vm_compute. reflexivity.
  - vm_compute. reflexivity.
  - vm_compute. auto.
  - vm_compute in E. inv E. destruct Hin.
Qed.

(** C4, amended: in a checklist that is parsed, the entry of a section
    of a phase is the list of the tasks on the unchecked lines of the
    section, in their order, when the label of the phase is on no
    later phase header and the label of the section on no later section
    header of the phase; and a checked line leaves the result as it is
    without the line. *)
Theorem section_tasks_are_recorded :
  (forall pre ph P mid sh S body post phs,
      classify ph = PhaseHeader P ->
      (forall l, In l mid -> is_phase_header l = false) ->
      classify sh = SectionHeader S ->
      (forall l, In l body -> is_header l = false) ->
      match post with [] => True | l :: _ => is_header l = true end ->
      (forall l, In l post -> classify l <> PhaseHeader P) ->
      (forall l, In l (same_phase post) -> classify l <> SectionHeader S) ->
      parse_lines (pre ++ ph :: mid ++ sh :: body ++ post) = Ok phs ->
      entry phs P S = Some (unchecked_tasks body)) /\
  (forall before line after,
      is_checked line = true ->
      parse_lines (before ++ line :: after) = parse_lines (before ++ after)).
Proof.
  split.
  - intros pre ph P mid sh S body post phs Cp Hmid Cs Hbody Hpost Hp Hs E.
    assert (Pne : P <> [])
      by (apply phase_named_not_empty; now apply classify_phase in Cp).
    assert (Sne : S <> []) by now apply classify_section in Cs.
    unfold parse_lines in E. apply rbind_ok in E as (st & E & Ephs).
    inv Ephs. rewrite run_lines_app in E.
    apply rbind_ok in E as (st0 & _ & E). cbn [run_lines] in E.
    apply rbind_ok in E as (st1 & E1 & E).
    rewrite step_classify, Cp in E1. inv E1.
    rewrite run_lines_app in E. apply rbind_ok in E as (st2 & E2 & E).
    apply (run_same_phase Pne) in E2 as [Hcp2 Hg2]; auto;
      [|cbn; rewrite get_set_same; discriminate].
    cbn [run_lines] in E. apply rbind_ok in E as (st3 & E3 & E).
    rewrite step_classify, Cs in E3. cbn [step_kind] in E3.
    rewrite Hcp2, (truthy_some Pne) in E3.
    apply rbind_ok in E3 as (secs & _ & E3). inv E3.
    rewrite run_lines_app in E. apply rbind_ok in E as (st4 & E4 & E).
    apply (run_section_body Pne Sne) with (acc := []) in E4
      as (Hcp4 & Hcs4 & He4); auto; [|cbn; apply entry_set_same].
    cbn [app] in He4.
    eapply run_inside_phase; [exact Pne|exact Hp|exact Hs|exact Hcp4|
                              right; exact Hpost|exact He4|exact E].
  - intros before line after H. apply is_checked_other in H.
    unfold parse_lines. rewrite !run_lines_app.
    destruct (run_lines initial before) as [st|e]; [|reflexivity].
    cbn [rbind run_lines]. now rewrite step_classify, H.
Qed.

Lemma section_tasks_are_recorded_witness :
  entry [(u "Phase 1: A", [(u "S", [u "t1"; u "t2"]); (u "T", [])])]
        (u "Phase 1: A") (u "S")
  = Some (unchecked_tasks [u "- [ ] t1"; u "- [x] done"; u "- [ ] t2"]).
Proof.
  apply (proj1 section_tasks_are_recorded
           [] (u "## Phase 1: A") (u "Phase 1: A") []
           (u "### S") (u "S")
           [u "- [ ] t1"; u "- [x] done"; u "- [ ] t2"] [u "### T"]).
  - vm_compute. reflexivity.
  - intros l [].
  - vm_compute. reflexivity.
  - intros l [<-|[<-|[<-|[]]]]; vm_compute; reflexivity.
  - vm_compute. reflexivity.
  - intros l [<-|[]]. vm_compute. discriminate.
  - intros l [<-|[]]. vm_compute. intros E. inv E.
  - vm_compute. reflexivity.
Defined.

(** ** parse_checklist: what can be raised, and the texts of the result *)

Section Failures.

Lemma step_keeps_phase_open (st st' : pstate) (line : pystr) :
  step st line = Ok st' -> phase_is_open st -> phase_is_open st'.
Proof.
  rewrite step_classify. unfold phase_is_open.
  destruct (classify line) as [Q|S'|t|]; cbn [step_kind].
  - intros E I cp H. inv E. cbn in *. inv H.
    rewrite get_set_same. discriminate.
  - destruct (truthy (current_phase st)) as [cp0|] eqn:T;
      [|intros E; now inv E].
    apply truthy_inv in T. intros E I cp H.
    apply rbind_ok in E as (secs & _ & E). inv E. cbn in *.
    assert (cp = cp0) as -> by congruence.
    rewrite get_set_same. discriminate.
  - destruct (truthy (current_phase st)) as [cp0|] eqn:T;
      [|intros E; now inv E].
    apply truthy_inv in T.
    destruct (truthy (current_section st)); [|intros E; now inv E].
    intros E I cp H. apply rbind_ok in E as (secs & _ & E).
    apply rbind_ok in E as (tasks & _ & E). inv E. cbn in *.
    assert (cp = cp0) as -> by congruence.
    rewrite get_set_same. discriminate.
  - intros E. now inv E.
Qed.

Lemma entry_None (phs : phases_t) (cp cs : pystr) (secs : sections_t) :
  Dict.get cp phs = Some secs -> Dict.get cs secs = None ->
  entry phs cp cs = None.
Proof. unfold entry. now intros ->. Qed.

(** The loop body raises on a task line only, when the current section
    is not a section of the current phase. *)
Lemma step_raises (st : pstate) (line : pystr) (e : exn) :
  phase_is_open st -> step st line = Raise e ->
  exists task cp cs,
    classify line = TaskLine task /\
    current_phase st = Some cp /\ current_section st = Some cs /\
    entry (phases st) cp cs = None /\ e = KeyError cs.
Proof.
  intros I. rewrite step_classify.
  destruct (classify line) as [Q|S'|t|]; cbn [step_kind]; try discriminate.
  - destruct (truthy (current_phase st)) as [cp|] eqn:T; [|discriminate].
    apply truthy_inv in T. specialize (I _ T). unfold Dict.getitem.
    destruct (Dict.get cp (phases st)); cbn [rbind];
      [discriminate|congruence].
  - destruct (truthy (current_phase st)) as [cp|] eqn:T; [|discriminate].
    apply truthy_inv in T.
    destruct (truthy (current_section st)) as [cs|] eqn:Tc;
      [|discriminate].
    apply truthy_inv in Tc. specialize (I _ T). unfold Dict.getitem.
    destruct (Dict.get cp (phases st)) as [secs|] eqn:Gp; [|congruence].
    cbn [rbind]. destruct (Dict.get cs secs) eqn:G; [discriminate|].
    cbn [rbind]. intros E. inv E. exists t, cp, cs.
    repeat split; auto. now apply entry_None with secs.
Qed.

(** The parser raises nothing but the [KeyError] of a task line whose
    section is not one of the current phase. *)
Lemma run_lines_raises (lines : list pystr) :
  forall st e,
    phase_is_open st -> run_lines st lines = Raise e ->
    exists pre line rest st' task cp cs,
      lines = pre ++ line :: rest /\ run_lines st pre = Ok st' /\
      classify line = TaskLine task /\
      current_phase st' = Some cp /\ current_section st' = Some cs /\
      entry (phases st') cp cs = None /\ e = KeyError cs.
Proof.
  induction lines as [|l lines IH]; intros st e I E; cbn in E;
    [discriminate|].
  destruct (step st l) as [st1|e1] eqn:E1; cbn [rbind] in E.
  - apply IH in E
      as (pre & line & rest & st' & task & cp & cs & -> & R & H);
      [|eapply step_keeps_phase_open; eassumption].
    exists (l :: pre), line, rest, st', task, cp, cs.
    split; [reflexivity|]. split; [|exact H].
    cbn. now rewrite E1.
  - inv E. apply step_raises in E1 as (task & cp & cs & H); [|exact I].
    exists [], l, lines, st, task, cp, cs. auto.
Qed.

Lemma parse_lines_raises (lines : list pystr) (e : exn) :
  parse_lines lines = Raise e -> exists cs, e = KeyError cs.
Proof.
  unfold parse_lines. intros E.
  destruct (run_lines initial lines) as [st|e'] eqn:R; [discriminate|].
  inv E. apply run_lines_raises in R
    as (pre & line & rest & st' & task & cp & cs & H);
    [|intros cp H; discriminate].
  exists cs. tauto.
Qed.

End Failures.

Section OneLine.

Lemma get_Forall {V} (Q : pystr * V -> Prop) (d : Dict.dict V)
      (k : pystr) (v : V) :
  Forall Q d -> Dict.get k d = Some v -> Q (k, v).
Proof.
  induction 1 as [|[k' v'] d Hq _ IH]; cbn; [discriminate|].
  destruct (str_eqb k' k) eqn:E; [|exact IH].
  apply str_eqb_eq in E. subst k'. intros G. now inv G.
Qed.

Lemma set_Forall {V} (Q : pystr * V -> Prop) (d : Dict.dict V)
      (k : pystr) (v : V) :
  Forall Q d -> Q (k, v) -> Forall Q (Dict.set k v d).
Proof.
  intros F Hq. induction F as [|[k' v'] d Hq' Hd IH]; cbn.
  - now constructor.
  - destruct (str_eqb k' k) eqn:E.
    + apply str_eqb_eq in E. subst k'. now constructor.
    + now constructor.
Qed.

Lemma step_one_line (st st' : pstate) (line : pystr) :
  step st line = Ok st' ->
  one_line_phases (phases st) -> one_line_phases (phases st').
Proof.
  rewrite step_classify. unfold one_line_phases.
  destruct (classify line) as [Q|S'|t|] eqn:C; cbn [step_kind].
  - intros E F. inv E. cbn. apply set_Forall; [exact F|].
    cbn. split; [now apply classify_phase in C|constructor].
  - destruct (truthy (current_phase st)) as [cp|]; [|intros E; now inv E].
    intros E F. apply rbind_ok in E as (secs & G & E). inv E. cbn.
    apply getitem_ok in G. pose proof (get_Forall _ F G) as [Hk Hs].
    apply set_Forall; [exact F|]. cbn in *. split; [exact Hk|].
    apply set_Forall; [exact Hs|].
    cbn. split; [now apply classify_section in C|constructor].
  - destruct (truthy (current_phase st)) as [cp|]; [|intros E; now inv E].
    destruct (truthy (current_section st)) as [cs|];
      [|intros E; now inv E].
    intros E F. apply rbind_ok in E as (secs & G & E).
    apply rbind_ok in E as (tasks & G' & E). inv E. cbn.
    apply getitem_ok in G. apply getitem_ok in G'.
    pose proof (get_Forall _ F G) as [Hk Hs]. cbn in Hk, Hs.
    pose proof (get_Forall _ Hs G') as [Hk' Ht]. cbn in Hk', Ht.
    apply set_Forall; [exact F|]. cbn. split; [exact Hk|].
    apply set_Forall; [exact Hs|]. cbn. split; [exact Hk'|].
    apply Forall_app. split; [exact Ht|].
    constructor; [now apply classify_task in C|constructor].
  - intros E. now inv E.
Qed.

(** The labels and the tasks of a parsed checklist have no line
    break. *)
Lemma parse_lines_one_line (lines : list pystr) (phs : phases_t) :
  parse_lines lines = Ok phs -> one_line_phases phs.
Proof.
  unfold parse_lines. intros E. apply rbind_ok in E as (st & E & Ephs).
  inv Ephs. assert (I : one_line_phases (phases initial)) by constructor.
  revert E I. generalize initial as st0. revert st.
  induction lines as [|l lines IH]; intros st st0 E I; cbn in E.
  - now inv E.
  - apply rbind_ok in E as (st1 & E1 & E).
    eapply IH; [exact E|]. eapply step_one_line; eassumption.
Qed.

End OneLine.

(** * Further properties of the parser *)

Section Preamble.

Lemma step_before_first_phase (line : pystr) :
  is_phase_header line = false -> step initial line = Ok initial.
Proof.
  intros H. rewrite step_classify. unfold is_phase_header in H.
  now destruct (classify line).
Qed.

Lemma run_before_first_phase (pre : list pystr) :
  (forall l, In l pre -> is_phase_header l = false) ->
  run_lines initial pre = Ok initial.
Proof.
  induction pre as [|l pre IH]; intros H; cbn; [reflexivity|].
  rewrite step_before_first_phase by (apply H; now left).
  cbn. apply IH. intros l' Hin. apply H. now right.
Qed.

End Preamble.

(** X1: the lines before the first phase header are ignored, section
    headers and tasks included: the result is the one of the rest of
    the document. *)
Theorem preamble_is_ignored (pre rest : list pystr) :
  (forall l, In l pre -> is_phase_header l = false) ->
  parse_lines (pre ++ rest) = parse_lines rest.
Proof.
  intros H. unfold parse_lines.
  now rewrite run_lines_app, run_before_first_phase.
Qed.

Lemma preamble_is_ignored_witness :
  parse_lines ([u "### Intro"; u "- [ ] early"; u "# Title"]
               ++ [u "## Phase 1: A"])
  = parse_lines [u "## Phase 1: A"].
Proof.
  apply preamble_is_ignored.
  intros l [<-|[<-|[<-|[]]]]; vm_compute; reflexivity.
Defined.

Section Markers.

Lemma strip_prefix_startswith (l s : pystr) :
  strip_prefix l s = None -> startswith l s = false.
Proof.
  revert s. induction l as [|a l IH]; intros s; cbn; [discriminate|].
  destruct s as [|b s]; [reflexivity|].
  destruct (N.eqb_spec a b); cbn; [apply IH|reflexivity].
Qed.

(** A pattern that begins with [^] and a literal text only matches
    what starts with the text. *)
Lemma literal_start (l : pystr) (r : regex) (s : pystr) :
  startswith l s = false -> re_match (Seq Bol (Seq (Lit l) r)) s = None.
Proof.
  intros H. unfold re_match. cbn [rmatch Nat.eqb].
  destruct (strip_prefix l s) as [s'|] eqn:E; [|reflexivity].
  apply strip_prefix_spec in E. subst s. now rewrite startswith_app in H.
Qed.

Lemma phase_re_start (s : pystr) :
  startswith (u "## Phase ") s = false -> re_match phase_re s = None.
Proof.
  intros H. destruct (re_match phase_re s) as [m|] eqn:E; [|reflexivity].
  apply re_match_sound in E as (w & s' & -> & M).
  unfold phase_re in M.
  repeat match goal with
  | M : matches (Seq _ _) _ _ _ _ _ |- _ => inv M
  | M : matches Bol _ _ _ _ _ |- _ => inv M
  | M : matches (Lit _) _ _ _ _ _ |- _ => inv M
  | M : matches (Group _ _) _ _ _ _ _ |- _ => inv M
  end.
  discriminate.
Qed.

Lemma unmarked_is_other (line : pystr) :
  startswith (u "## Phase ") (strip line) = false ->
  startswith (u "### ") (strip line) = false ->
  startswith (u "- [ ] ") (strip line) = false ->
  classify line = Other.
Proof.
  intros Hp Hs Ht. unfold classify.
  rewrite (phase_re_start _ Hp).
  unfold section_re, task_re. now rewrite !literal_start.
Qed.

End Markers.

(** X2: a line that, once stripped, starts with none of [## Phase ],
    [### ] and [- [ ] ] is skipped: the result is the one of the
    document without the line. *)
Theorem unmarked_lines_are_skipped (before after : list pystr)
        (line : pystr) :
  startswith (u "## Phase ") (strip line) = false ->
  startswith (u "### ") (strip line) = false ->
  startswith (u "- [ ] ") (strip line) = false ->
  parse_lines (before ++ line :: after) = parse_lines (before ++ after).
Proof.
  intros Hp Hs Ht. pose proof (unmarked_is_other _ Hp Hs Ht) as C.
  unfold parse_lines. rewrite !run_lines_app.
  destruct (run_lines initial before) as [st|e]; [|reflexivity].
  cbn [rbind run_lines]. now rewrite step_classify, C.
Qed.

Lemma unmarked_lines_are_skipped_witness :
  parse_lines ([u "## Phase 1: A"] ++ u "## Notes" :: [u "### S"])
  = parse_lines ([u "## Phase 1: A"] ++ [u "### S"]).
Proof.
  apply unmarked_lines_are_skipped; vm_compute; reflexivity.
Defined.

Section FileLines.

Lemma rstrip_app_space (l : pystr) (c : char) :
  isspace c = true -> rstrip (l ++ [c]) = rstrip l.
Proof.
  intros H. induction l as [|a l IH]; cbn -[isspace].
  - now rewrite H.
  - now rewrite IH.
Qed.

Lemma lstrip_app_space (l : pystr) (c : char) :
  isspace c = true ->
  lstrip (l ++ [c]) = match lstrip l with [] => [] | t => t ++ [c] end.
Proof.
  intros H. induction l as [|a l IH]; cbn -[isspace].
  - now rewrite H.
  - destruct (isspace a); [exact IH|reflexivity].
Qed.

(** A white space at the end of a line does not count. *)
Lemma strip_app_space (l : pystr) (c : char) :
  isspace c = true -> strip (l ++ [c]) = strip l.
Proof.
  intros H. unfold strip. rewrite lstrip_app_space by exact H.
  destruct (lstrip l) as [|a t]; [reflexivity|].
  now rewrite rstrip_app_space.
Qed.

Lemma step_line_ending (st : pstate) (l : pystr) :
  step st (l ++ [nl]) = step st l.
Proof. unfold step. now rewrite strip_app_space. Qed.

Lemma run_lines_endings (ls : list pystr) :
  forall st, run_lines st (map (fun l => l ++ [nl]) ls) = run_lines st ls.
Proof.
  induction ls as [|l ls IH]; intros st; cbn; [reflexivity|].
  rewrite step_line_ending. destruct (step st l); cbn; auto.
Qed.

Lemma readlines_aux_line (l t cur : pystr) :
  one_line l ->
  readlines_aux cur (l ++ nl :: t)
  = (rev cur ++ l ++ [nl]) :: readlines_aux [] t.
Proof.
  revert cur. induction l as [|c l IH]; intros cur H; cbn.
  - reflexivity.
  - destruct (N.eqb_spec c nl) as [->|N]; [exfalso; apply H; now left|].
    rewrite IH by (intros Hin; apply H; now right).
    cbn. now rewrite <- app_assoc.
Qed.

Lemma readlines_aux_last (l cur : pystr) :
  one_line l ->
  readlines_aux cur l
  = match cur, l with [], [] => [] | _, _ => [rev cur ++ l] end.
Proof.
  revert cur. induction l as [|c l IH]; intros cur H; cbn.
  - destruct cur; [reflexivity|]. now rewrite app_nil_r.
  - destruct (N.eqb_spec c nl) as [->|N]; [exfalso; apply H; now left|].
    rewrite IH by (intros Hin; apply H; now right).
    cbn [rev]. rewrite <- app_assoc. now destruct cur.
Qed.

(** The lines of a text that is made of lines. *)
Lemma readlines_unlines (ls : list pystr) (last : pystr) :
  Forall one_line ls -> one_line last ->
  readlines (unlines ls ++ last)
  = map (fun l => l ++ [nl]) ls
    ++ match last with [] => [] | _ => [last] end.
Proof.
  unfold readlines. intros F Hl.
  induction F as [|l ls Hone _ IH]; cbn [map app].
  - cbn. rewrite readlines_aux_last by exact Hl. now destruct last.
  - rewrite unlines_cons, <- !app_assoc. cbn [app].
    rewrite readlines_aux_line by exact Hone. cbn. now rewrite IH.
Qed.

End FileLines.

(** X3: the result for a file is the result for its lines without
    their endings, whether or not the last line is ended. *)
Theorem parse_checklist_by_lines (fs : filesystem) (path : pystr)
        (ls : list pystr) (last : pystr) :
  Forall one_line ls -> one_line last ->
  fs path = Some (Text (unlines ls ++ last)) ->
  parse_checklist fs path = parse_lines (ls ++ [last]).
Proof.
  intros F Hl E. unfold parse_checklist. rewrite E.
  rewrite readlines_unlines by assumption.
  unfold parse_lines. rewrite !run_lines_app, run_lines_endings.
  destruct (run_lines initial ls) as [st|e]; [|reflexivity].
  cbn [rbind]. destruct last; [reflexivity|].
  reflexivity.
Qed.

Lemma parse_checklist_by_lines_witness :
  parse_checklist
    (one_file (u "c.md") (unlines [u "## Phase 1: A"; u "### S"]
                          ++ u "- [ ] t"))
    (u "c.md")
  = parse_lines ([u "## Phase 1: A"; u "### S"] ++ [u "- [ ] t"]).
Proof.
  apply parse_checklist_by_lines.
  - repeat constructor; apply forallb_dot_one_line; reflexivity.
  - apply forallb_dot_one_line. reflexivity.
  - reflexivity.
Defined.

(** X4: for a path without NUL character, [parse_checklist] raises in
    three cases only: the file cannot be opened or read ([OSError]),
    its bytes cannot be decoded ([UnicodeDecodeError]), or a task line
    comes while the current section is not a section of the current
    phase, which gives the [KeyError] of that section label. *)
Theorem parse_checklist_failures (fs : filesystem) (path : pystr)
        (e : exn) :
  has_nul path = false ->
  parse_checklist fs path = Raise e ->
  (fs path = None /\ e = OSError path) \/
  (fs path = Some Undecodable /\ e = UnicodeDecodeError) \/
  (exists text pre line rest st task cp cs,
      fs path = Some (Text text) /\ readlines text = pre ++ line :: rest /\
      run_lines initial pre = Ok st /\ classify line = TaskLine task /\
      current_phase st = Some cp /\ current_section st = Some cs /\
      entry (phases st) cp cs = None /\ e = KeyError cs).
Proof.
  intros _. unfold parse_checklist, parse_lines.
  destruct (fs path) as [[text|]|]; [|intros E; inv E; auto..].
  intros E. right. right.
  destruct (run_lines initial (readlines text)) as [st|e'] eqn:R;
    [discriminate|].
  inv E. apply run_lines_raises in R
    as (pre & line & rest & st' & task & cp & cs & H);
    [|intros cp H; discriminate].
  exists text, pre, line, rest, st', task, cp, cs. tauto.
Qed.

Lemma parse_checklist_failures_witness :
  (one_file (u "c.md") stale_section_doc (u "c.md") = None /\
   KeyError (u "S") = OSError (u "c.md")) \/
  (one_file (u "c.md") stale_section_doc (u "c.md") = Some Undecodable /\
   KeyError (u "S") = UnicodeDecodeError) \/
  (exists text pre line rest st task cp cs,
      one_file (u "c.md") stale_section_doc (u "c.md") = Some (Text text) /\
      readlines text = pre ++ line :: rest /\
      run_lines initial pre = Ok st /\ classify line = TaskLine task /\
      current_phase st = Some cp /\ current_section st = Some cs /\
      entry (phases st) cp cs = None /\ KeyError (u "S") = KeyError cs).
Proof.
  apply parse_checklist_failures; vm_compute; reflexivity.
Defined.

Section Stale.

Lemma flags_step (st : pstate) (l : pystr) (a b f : bool) :
  flags_of st a b f ->
  match classify l with
  | PhaseHeader _ =>
      exists st', step st l = Ok st' /\ flags_of st' true b false
  | SectionHeader _ =>
      exists st', step st l = Ok st' /\
                  if a then flags_of st' true true true
                  else flags_of st' a b f
  | TaskLine _ =>
      if a && b && negb f then exists e, step st l = Raise e
      else exists st', step st l = Ok st' /\ flags_of st' a b f
  | Other => exists st', step st l = Ok st' /\ flags_of st' a b f
  end.
Proof.
  intros (Ha & Hb & Hf). rewrite step_classify.
  destruct (classify l) as [Q|S'|t|] eqn:C; cbn [step_kind].
  - eexists. split; [reflexivity|].
    unfold flags_of. cbn [phases current_phase current_section].
    assert (Q <> [])
      by (apply phase_named_not_empty; now apply classify_phase in C).
    repeat split.
    + exists Q. repeat split; auto. rewrite get_set_same. discriminate.
    + exact Hb.
    + intros cp cs Ecp Ecs. inv Ecp. unfold entry.
      now rewrite get_set_same.
  - destruct a.
    + destruct Ha as (cp & Ecp & Ncp & G).
      rewrite Ecp, (truthy_some Ncp). unfold Dict.getitem.
      destruct (Dict.get cp (phases st)) as [secs|] eqn:Gp; [|congruence].
      cbn [rbind]. eexists. split; [reflexivity|].
    unfold flags_of. cbn [phases current_phase current_section].
      assert (S' <> []) by now apply classify_section in C.
      repeat split.
      * exists cp. repeat split; auto. rewrite get_set_same. discriminate.
      * exists S'. auto.
      * intros cp' cs' Ecp' Ecs'. inv Ecs'.
        assert (cp' = cp) as -> by congruence.
        unfold entry. now rewrite !get_set_same.
    + rewrite Ha. cbn [truthy]. eexists. split; [reflexivity|]. now repeat split.
  - destruct a; cbn [andb].
    + destruct Ha as (cp & Ecp & Ncp & G).
      rewrite Ecp, (truthy_some Ncp).
      destruct b; cbn [andb].
      * destruct Hb as (cs & Ecs & Ncs).
        rewrite Ecs, (truthy_some Ncs). unfold Dict.getitem.
        specialize (Hf cp cs Ecp Ecs). unfold entry in Hf.
        destruct (Dict.get cp (phases st)) as [secs|] eqn:Gp;
          [|congruence].
        cbn [rbind]. destruct f; cbn [negb].
        -- destruct (Dict.get cs secs) as [tasks|] eqn:Gs; [|congruence].
           cbn [rbind]. eexists. split; [reflexivity|].
    unfold flags_of. cbn [phases current_phase current_section].
           repeat split.
           ++ exists cp. repeat split; auto.
              rewrite get_set_same. discriminate.
           ++ exists cs. auto.
           ++ intros cp' cs' Ecp' Ecs'.
              assert (cp' = cp) as -> by congruence.
              assert (cs' = cs) as -> by congruence.
              unfold entry. now rewrite !get_set_same.
        -- rewrite Hf. cbn [rbind]. eauto.
      * rewrite Hb. cbn [truthy]. eexists. split; [reflexivity|].
        repeat split; eauto.
    + rewrite Ha. cbn [truthy]. eexists. split; [reflexivity|]. now repeat split.
  - eexists. split; [reflexivity|]. now repeat split.
Qed.

Lemma run_lines_stale (lines : list pystr) :
  forall st a b f,
    flags_of st a b f ->
    (exists st', run_lines st lines = Ok st') <->
    stale_task a b f lines = false.
Proof.
  induction lines as [|l lines IH]; intros st a b f F;
    cbn [run_lines stale_task].
  - split; eauto.
  - pose proof (flags_step l F) as H.
    destruct (classify l) as [Q|S'|t|].
    + destruct H as (st1 & -> & F1). cbn [rbind]. now apply IH.
    + destruct H as (st1 & -> & F1). cbn [rbind].
      destruct a; now apply IH.
    + destruct (a && b && negb f).
      * destruct H as (e & ->). cbn [rbind].
        split; [intros (st' & E)|]; discriminate.
      * destruct H as (st1 & -> & F1). cbn [rbind]. now apply IH.
    + destruct H as (st1 & -> & F1). cbn [rbind]. now apply IH.
Qed.

End Stale.

(** X5: the line loop ends without an exception exactly when no task
    line comes after a phase header and before the first section
    header of that phase while a section of an earlier phase is still
    current. *)
Theorem parse_lines_succeeds_iff (lines : list pystr) :
  (exists phs, parse_lines lines = Ok phs) <->
  stale_task false false false lines = false.
Proof.
  assert (F : flags_of initial false false false).
  { now repeat split. }
  rewrite <- (run_lines_stale lines F). unfold parse_lines. split.
  - intros (phs & E). apply rbind_ok in E as (st & E & _). eauto.
  - intros (st & E). rewrite E. cbn. eauto.
Qed.

Lemma parse_lines_succeeds_iff_witness :
  exists phs,
    parse_lines [u "## Phase 1: A"; u "- [ ] early"; u "### S"; u "- [ ] t";
                 u "## Phase 2: B"; u "### T"; u "- [ ] v"]
    = Ok phs.
Proof.
  apply parse_lines_succeeds_iff. vm_compute. reflexivity.
Defined.

Section Clean.

Lemma lstrip_head (s : pystr) :
  lstrip s = [] \/ exists c t, lstrip s = c :: t /\ isspace c = false.
Proof.
  induction s as [|c t IH]; cbn -[isspace]; [now left|].
  destruct (isspace c) eqn:E; [exact IH|]. right. eauto.
Qed.

Lemma rstrip_idem (s : pystr) : rstrip (rstrip s) = rstrip s.
Proof.
  induction s as [|c t IH]; [reflexivity|]. cbn -[isspace].
  destruct (rstrip t) as [|d t'] eqn:E.
  - destruct (isspace c) eqn:Ec; [reflexivity|].
    cbn -[isspace]. now rewrite Ec.
  - cbn -[isspace] in *. now rewrite IH.
Qed.

(** Stripping twice is stripping once. *)
Lemma strip_idem (s : pystr) : strip (strip s) = strip s.
Proof.
  unfold strip. destruct (lstrip_head s) as [->|(c & t & -> & Ec)];
    [reflexivity|].
  rewrite rstrip_nonspace by exact Ec. cbn -[isspace rstrip].
  rewrite Ec. rewrite rstrip_nonspace by exact Ec. now rewrite rstrip_idem.
Qed.

Lemma strip_clean (w : pystr) :
  strip w <> [] -> one_line w -> clean (strip w).
Proof.
  intros N H. repeat split; [exact N|apply strip_idem|].
  now apply one_line_strip.
Qed.

Lemma isdecimal_not_colon (d : pystr) :
  forallb isdecimal d = true -> ~ In colon d.
Proof.
  intros H Hin. rewrite forallb_forall in H. specialize (H _ Hin).
  discriminate.
Qed.

(** The phase pattern, with the digits it needs. *)
Lemma phase_re_match_digits (s : pystr) (m : captures) :
  re_match phase_re s = Some m ->
  exists d x,
    group 1 m = Some (u "Phase " ++ d ++ colon :: x) /\
    d <> [] /\ forallb isdecimal d = true /\ forallb dot x = true.
Proof.
  intros H. apply re_match_sound in H as (w & s' & -> & M).
  unfold phase_re, Plus in M.
  repeat match goal with
  | M : matches (Seq _ _) _ _ _ _ _ |- _ => inv M
  | M : matches Bol _ _ _ _ _ |- _ => inv M
  | M : matches Eol _ _ _ _ _ |- _ => inv M
  | M : matches (Lit _) _ _ _ _ _ |- _ => inv M
  | M : matches (Chr _) _ _ _ _ _ |- _ => inv M
  | M : matches (Group _ _) _ _ _ _ _ |- _ => inv M
  end.
  repeat match goal with
  | H : matches (Star _ (Chr isdecimal)) _ _ _ _ _ |- _ =>
      pose proof (matches_groupless H eq_refl);
      apply matches_star_chr in H
  | H : matches (Star _ (Chr dot)) _ _ _ _ _ |- _ =>
      pose proof (matches_groupless H eq_refl);
      apply matches_star_chr in H
  | H : matches (Star _ (Chr isspace)) _ _ _ _ _ |- _ =>
      apply matches_groupless in H; [|reflexivity]
  | H : matches (Star _ (Seq _ _)) _ _ _ _ _ |- _ =>
      apply matches_groupless in H; [|reflexivity]
  end.
  subst. simpl.
  match goal with
  | Hd : isdecimal ?a = true, Hx : dot ?b = true |- _ =>
      match goal with
      | Hds : forallb isdecimal ?d = true, Hxs : forallb dot ?x = true |- _ =>
          exists (a :: d), (b :: x); simpl; rewrite Hd, Hx, Hds, Hxs
      end
  end.
  repeat split. discriminate.
Qed.

Lemma strip_phase_label (d x : pystr) :
  strip (u "Phase " ++ d ++ colon :: x)
  = u "Phase " ++ d ++ colon :: rstrip x.
Proof.
  unfold strip.
  change (lstrip (u "Phase " ++ d ++ colon :: x))
    with (u "Phase " ++ d ++ colon :: x).
  rewrite app_assoc, rstrip_app.
  - rewrite rstrip_nonspace by apply isspace_colon.
    now rewrite <- app_assoc.
  - rewrite rstrip_nonspace by apply isspace_colon. discriminate.
Qed.

Lemma classify_phase_label (line label : pystr) :
  classify line = PhaseHeader label -> clean label /\ phase_label label.
Proof.
  intros C. pose proof (classify_phase _ C) as [Hn Ho].
  unfold classify in C.
  destruct (re_match phase_re (strip line)) as [m|] eqn:Ep.
  - apply phase_re_match_digits in Ep as (d & x & G & Nd & Hd & Hx).
    unfold labelled in C. rewrite G in C. inv C. split.
    + repeat split; [now apply phase_named_not_empty|apply strip_idem|
                     exact Ho].
    + change (phase_label (strip (u "Phase " ++ d ++ colon :: x))).
      rewrite strip_phase_label. exists d, (rstrip x). auto.
  - destruct (re_match section_re (strip line)) as [m|] eqn:Es.
    { apply marker_label_shape in Es as (w & _ & G & _).
      unfold labelled in C. rewrite G in C. discriminate. }
    destruct (re_match task_re (strip line)) as [m|] eqn:Et;
      [|discriminate].
    apply marker_label_shape in Et as (w & _ & G & _).
    unfold labelled in C. rewrite G in C. discriminate.
Qed.

Lemma classify_section_clean (line label : pystr) :
  classify line = SectionHeader label -> clean label.
Proof.
  intros C. pose proof (classify_section _ C) as [Hn Ho].
  unfold classify in C.
  destruct (re_match phase_re (strip line)) as [m|] eqn:Ep.
  - apply phase_label_shape in Ep as (g & G & H).
    unfold labelled in C. rewrite G in C. discriminate.
  - destruct (re_match section_re (strip line)) as [m|] eqn:Es.
    { apply marker_label_shape in Es as (w & _ & G & _).
      unfold labelled in C. rewrite G in C. inv C.
      repeat split; [exact Hn|apply strip_idem|exact Ho]. }
    destruct (re_match task_re (strip line)) as [m|] eqn:Et;
      [|discriminate].
    apply marker_label_shape in Et as (w & _ & G & _).
    unfold labelled in C. rewrite G in C. discriminate.
Qed.

Lemma classify_task_clean (line task : pystr) :
  classify line = TaskLine task -> clean task.
Proof.
  intros C. pose proof (classify_task _ C) as Ho.
  unfold classify in C.
  destruct (re_match phase_re (strip line)) as [m|] eqn:Ep.
  - apply phase_label_shape in Ep as (g & G & H).
    unfold labelled in C. rewrite G in C. discriminate.
  - destruct (re_match section_re (strip line)) as [m|] eqn:Es.
    { apply marker_label_shape in Es as (w & _ & G & _).
      unfold labelled in C. rewrite G in C. discriminate. }
    destruct (re_match task_re (strip line)) as [m|] eqn:Et;
      [|discriminate].
    apply marker_label_shape in Et as (w & _ & G & N & _).
    unfold labelled in C. rewrite G in C. inv C.
    repeat split; [exact N|apply strip_idem|exact Ho].
Qed.

(** What holds of the texts of every kind of line holds of the texts
    of the result. *)
Lemma step_texts (Qp Qs Qt : pystr -> Prop) (st st' : pstate)
      (line : pystr) :
  (forall x, classify line = PhaseHeader x -> Qp x) ->
  (forall x, classify line = SectionHeader x -> Qs x) ->
  (forall x, classify line = TaskLine x -> Qt x) ->
  step st line = Ok st' ->
  texts_satisfy Qp Qs Qt (phases st) ->
  texts_satisfy Qp Qs Qt (phases st').
Proof.
  intros Hp Hs Ht. rewrite step_classify. unfold texts_satisfy.
  destruct (classify line) as [Q|S'|t|] eqn:C; cbn [step_kind].
  - intros E F. inv E. cbn [phases]. apply set_Forall; [exact F|].
    cbn. split; [now apply Hp|constructor].
  - destruct (truthy (current_phase st)) as [cp|]; [|intros E; now inv E].
    intros E F. apply rbind_ok in E as (secs & G & E). inv E. cbn [phases].
    apply getitem_ok in G. pose proof (get_Forall _ F G) as [Hk Hsec].
    apply set_Forall; [exact F|]. cbn [fst snd] in *. split; [exact Hk|].
    apply set_Forall; [exact Hsec|].
    cbn. split; [now apply Hs|constructor].
  - destruct (truthy (current_phase st)) as [cp|]; [|intros E; now inv E].
    destruct (truthy (current_section st)) as [cs|];
      [|intros E; now inv E].
    intros E F. apply rbind_ok in E as (secs & G & E).
    apply rbind_ok in E as (tasks & G' & E). inv E. cbn [phases].
    apply getitem_ok in G. apply getitem_ok in G'.
    pose proof (get_Forall _ F G) as [Hk Hsec]. cbn [fst snd] in Hk, Hsec.
    pose proof (get_Forall _ Hsec G') as [Hk' Htasks].
    cbn [fst snd] in Hk', Htasks.
    apply set_Forall; [exact F|]. cbn [fst snd]. split; [exact Hk|].
    apply set_Forall; [exact Hsec|]. cbn [fst snd]. split; [exact Hk'|].
    apply Forall_app. split; [exact Htasks|].
    constructor; [now apply Ht|constructor].
  - intros E. now inv E.
Qed.

Lemma run_lines_texts (Qp Qs Qt : pystr -> Prop) (lines : list pystr) :
  (forall line x, classify line = PhaseHeader x -> Qp x) ->
  (forall line x, classify line = SectionHeader x -> Qs x) ->
  (forall line x, classify line = TaskLine x -> Qt x) ->
  forall st st',
    run_lines st lines = Ok st' ->
    texts_satisfy Qp Qs Qt (phases st) ->
    texts_satisfy Qp Qs Qt (phases st').
Proof.
  intros Hp Hs Ht.
  induction lines as [|l lines IH]; intros st st' E F; cbn in E.
  - now inv E.
  - apply rbind_ok in E as (st1 & E1 & E).
    eapply IH; [exact E|].
    eapply step_texts; [apply Hp|apply Hs|apply Ht|exact E1|exact F].
Qed.

End Clean.

(** X6: in the result of a parsed checklist every phase label has the
    form [Phase <digits>:<text>], and every phase label, section label
    and task is not empty, has no white space at either end and no
    line break. *)
Theorem parsed_texts_are_clean (lines : list pystr) (phs : phases_t) :
  parse_lines lines = Ok phs ->
  texts_satisfy (fun p => clean p /\ phase_label p) clean clean phs.
Proof.
  unfold parse_lines. intros E. apply rbind_ok in E as (st & E & Ephs).
  inv Ephs.
  eapply run_lines_texts; [| | |exact E|constructor].
  - intros line x. apply classify_phase_label.
  - intros line x. apply classify_section_clean.
  - intros line x. apply classify_task_clean.
Qed.

Lemma parsed_texts_are_clean_witness :
  texts_satisfy (fun p => clean p /\ phase_label p) clean clean
                [(u "Phase 1: A", [(u "S", [u "t"])])].
Proof.
  apply (parsed_texts_are_clean
           [u "  ## Phase 1: A  "; u "###   S "; u "- [ ]  t"]).
  vm_compute. reflexivity.
Defined.

(** * Which lines the patterns recognise *)

Section Recognition.

Lemma rmatch_star (g : bool) (r : regex) pos s c k :
  rmatch (Star g r) pos s c k = star_loop g (rmatch r) k (length s) pos s c.
Proof. reflexivity. Qed.

Lemma rmatch_seq (r1 r2 : regex) pos s c k :
  rmatch (Seq r1 r2) pos s c k
  = rmatch r1 pos s c (fun pos' s' c' => rmatch r2 pos' s' c' k).
Proof. reflexivity. Qed.

Lemma strip_prefix_app (l s : pystr) : strip_prefix l (l ++ s) = Some s.
Proof.
  induction l as [|a l IH]; cbn; [reflexivity|].
  now rewrite N.eqb_refl.
Qed.

Lemma rmatch_lit (l : pystr) pos s c k :
  rmatch (Lit l) pos (l ++ s) c k = k (pos + length l) s c.
Proof. cbn [rmatch]. now rewrite strip_prefix_app. Qed.

Lemma rmatch_chr_cons (p : char -> bool) pos x s c k :
  rmatch (Chr p) pos (x :: s) c k = if p x then k (S pos) s c else None.
Proof. reflexivity. Qed.

Lemma rmatch_chr_nil (p : char -> bool) pos c k :
  rmatch (Chr p) pos [] c k = None.
Proof. reflexivity. Qed.

Lemma rmatch_eol_nil pos c k : rmatch Eol pos [] c k = k pos [] c.
Proof. reflexivity. Qed.

Lemma star_loop_S g body (k : cont) fuel pos s c :
  star_loop g body k (S fuel) pos s c
  = let more :=
      body pos s c
        (fun pos' s' c' =>
           if pos <? pos' then star_loop g body k fuel pos' s' c'
           else None) in
    if g then orelse more (k pos s c) else orelse (k pos s c) more.
Proof. reflexivity. Qed.

Lemma ltb_succ (pos : nat) : (pos <? S pos) = true.
Proof. apply Nat.ltb_lt. lia. Qed.

(** A greedy star of a character class takes all the characters of the
    class, when what follows can go on from there. *)
Lemma greedy_chr_all (p : char -> bool) (k : cont) (a b : pystr) m :
  forallb p a = true ->
  (b = [] \/ exists y b', b = y :: b' /\ p y = false) ->
  forall fuel pos c,
    length a <= fuel ->
    k (pos + length a) b c = Some m ->
    star_loop true (rmatch (Chr p)) k fuel pos (a ++ b) c = Some m.
Proof.
  intros Ha Hb. induction a as [|x a IH]; intros fuel pos c Hf Hk.
  - rewrite Nat.add_0_r in Hk. cbn [app].
    destruct fuel as [|fuel]; [exact Hk|]. rewrite star_loop_S. cbv zeta.
    destruct Hb as [->|(y & b' & -> & Hy)].
    + rewrite rmatch_chr_nil. exact Hk.
    + rewrite rmatch_chr_cons, Hy. exact Hk.
  - cbn in Ha. apply andb_true_iff in Ha as [Hx Ha].
    destruct fuel as [|fuel]; [cbn in Hf; lia|].
    rewrite star_loop_S. cbv zeta. cbn [app].
    rewrite rmatch_chr_cons, Hx, ltb_succ.
    rewrite (IH Ha fuel (S pos) c); [reflexivity|cbn in Hf; lia|].
    cbn [length] in Hk. now rewrite Nat.add_succ_r in Hk.
Qed.

(** A lazy star of a character class stops at the first place from
    which what follows can go on. *)
Lemma lazy_chr_first (p : char -> bool) (k : cont) (a b : pystr) m :
  forallb p a = true ->
  forall fuel pos c,
    length a <= fuel ->
    (forall a1 a2, a = a1 ++ a2 -> a2 <> [] ->
                   k (pos + length a1) (a2 ++ b) c = None) ->
    k (pos + length a) b c = Some m ->
    star_loop false (rmatch (Chr p)) k fuel pos (a ++ b) c = Some m.
Proof.
  intros Ha. induction a as [|x a IH]; intros fuel pos c Hf Hn Hk.
  - rewrite Nat.add_0_r in Hk. cbn [app].
    destruct fuel as [|fuel]; [exact Hk|]. rewrite star_loop_S. cbv zeta.
    now rewrite Hk.
  - cbn in Ha. apply andb_true_iff in Ha as [Hx Ha].
    destruct fuel as [|fuel]; [cbn in Hf; lia|].
    rewrite star_loop_S. cbv zeta. cbn [app].
    pose proof (Hn [] (x :: a) eq_refl ltac:(discriminate)) as H0.
    cbn [length app] in H0. rewrite Nat.add_0_r in H0. rewrite H0.
    cbn [orelse]. rewrite rmatch_chr_cons, Hx, ltb_succ.
    apply IH; [exact Ha|cbn in Hf; lia| |].
    + intros a1 a2 E N. specialize (Hn (x :: a1) a2).
      cbn [length app] in Hn. rewrite Nat.add_succ_r in Hn.
      apply Hn; [now rewrite E|exact N].
    + cbn [length] in Hk. now rewrite Nat.add_succ_r in Hk.
Qed.

(** [p+] and [p+?] *)
Lemma plus_greedy (p : char -> bool) (k : cont) x (a b s : pystr) pos c m :
  s = x :: a ++ b ->
  p x = true -> forallb p a = true ->
  (b = [] \/ exists y b', b = y :: b' /\ p y = false) ->
  k (S pos + length a) b c = Some m ->
  rmatch (Plus true (Chr p)) pos s c k = Some m.
Proof.
  intros -> Hx Ha Hb Hk. unfold Plus.
  rewrite rmatch_seq, rmatch_chr_cons, Hx. change (star_loop true (rmatch (Chr p)) k
    (length (a ++ b)) (S pos) (a ++ b) c = Some m).
  apply greedy_chr_all; auto. rewrite length_app. lia.
Qed.

Lemma plus_lazy (p : char -> bool) (k : cont) x (a b s : pystr) pos c m :
  s = x :: a ++ b ->
  p x = true -> forallb p a = true ->
  (forall a1 a2, a = a1 ++ a2 -> a2 <> [] ->
                 k (S pos + length a1) (a2 ++ b) c = None) ->
  k (S pos + length a) b c = Some m ->
  rmatch (Plus false (Chr p)) pos s c k = Some m.
Proof.
  intros -> Hx Ha Hn Hk. unfold Plus.
  rewrite rmatch_seq, rmatch_chr_cons, Hx. change (star_loop false (rmatch (Chr p)) k
    (length (a ++ b)) (S pos) (a ++ b) c = Some m).
  apply lazy_chr_first; auto. rewrite length_app. lia.
Qed.

Lemma rmatch_bol s c k : rmatch Bol 0 s c k = k 0 s c.
Proof. reflexivity. Qed.

Lemma rmatch_group (n : nat) (r : regex) pos s c k :
  rmatch (Group n r) pos s c k
  = rmatch r pos s c
      (fun pos' s' c' => k pos' s' ((n, firstn (pos' - pos) s) :: c')).
Proof. reflexivity. Qed.

(** The pattern of a section header and of a task line matches the
    marker followed by a text without line break. *)
Lemma marker_re_complete (marker w : pystr) :
  w <> [] -> forallb dot w = true ->
  re_match (Seq Bol (Seq (Lit marker)
             (Seq (Group 1 (Plus true (Chr dot))) Eol))) (marker ++ w)
  = Some [(1, w)].
Proof.
  intros Hw Hd. destruct w as [|x w]; [congruence|clear Hw].
  cbn in Hd. apply andb_true_iff in Hd as [Hx Hd].
  unfold re_match. rewrite rmatch_seq, rmatch_bol.
  rewrite rmatch_seq, rmatch_lit.
  rewrite rmatch_seq, rmatch_group.
  eapply plus_greedy with (a := w) (b := []);
    [now rewrite app_nil_r|exact Hx|exact Hd|now left|].
  rewrite rmatch_eol_nil.
  replace (S (0 + length marker) + length w - (0 + length marker))
    with (length (x :: w)) by (cbn [length]; lia).
  now rewrite firstn_all.
Qed.

(** The decorations are not white space. *)
Lemma deco_not_space (x : char) :
  one_of decorations x = true -> isspace x = false.
Proof.
  unfold one_of, decorations. cbn [existsb]. intros H.
  repeat (apply orb_true_iff in H as [H|H];
          [apply N.eqb_eq in H; subst x; reflexivity|]).
  discriminate.
Qed.

Lemma span_spaces (t : pystr) :
  exists sps rest,
    t = sps ++ rest /\ forallb isspace sps = true /\
    (rest = [] \/ exists y r, rest = y :: r /\ isspace y = false).
Proof.
  induction t as [|x t (sps & rest & -> & Hs & Hr)].
  - exists [], []. auto.
  - destruct (isspace x) eqn:Ex.
    + exists (x :: sps), rest. cbn [forallb app]. rewrite Ex, Hs. auto.
    + exists [], (x :: sps ++ rest). repeat split. right. eauto.
Qed.

(** [\s*$] on white space *)
Lemma space_eol pos (s : pystr) c (k : cont) m :
  forallb isspace s = true -> k (pos + length s) [] c = Some m ->
  rmatch (Seq (Star true (Chr isspace)) Eol) pos s c k = Some m.
Proof.
  intros Hs Hk. rewrite rmatch_seq, rmatch_star.
  epose proof (@greedy_chr_all isspace _ s [] m Hs (or_introl eq_refl)
                 (length s) pos c (le_n _)) as H.
  rewrite app_nil_r in H. apply H. now rewrite rmatch_eol_nil.
Qed.

(** [\s*[...]] cannot match in white space. *)
Lemma space_deco_fails pos (s : pystr) c (k : cont) :
  forallb isspace s = true ->
  rmatch (Seq (Star true (Chr isspace)) (Chr (one_of decorations)))
         pos s c k = None.
Proof.
  intros Hs.
  destruct (rmatch _ pos s c k) as [m|] eqn:E; [exfalso|reflexivity].
  apply rmatch_sound in E as (w & s' & c' & -> & M & _).
  inv M. match goal with H : matches (Chr _) _ _ _ _ _ |- _ => inv H end.
  match goal with H : one_of _ ?x = true |- _ =>
    apply deco_not_space in H; rename H into Hx end.
  rewrite !forallb_app in Hs. cbn [forallb] in Hs.
  rewrite Hx, !andb_false_r in Hs. discriminate.
Qed.

(** [(?:\s*[...])*\s*$] on white space and decorations *)
Lemma trailer_loop (k : cont) m c :
  forall fuel pos (t : pystr),
    forallb trailer t = true -> length t <= fuel ->
    k (pos + length t) [] c = Some m ->
    star_loop true
      (rmatch (Seq (Star true (Chr isspace)) (Chr (one_of decorations))))
      (fun pos' s' c' =>
         rmatch (Seq (Star true (Chr isspace)) Eol) pos' s' c' k)
      fuel pos t c = Some m.
Proof.
  induction fuel as [|fuel IH]; intros pos t Ht Hf Hk.
  - destruct t; [|cbn in Hf; lia]. cbn [star_loop].
    now apply space_eol.
  - rewrite star_loop_S. cbv zeta.
    destruct (span_spaces t) as (sps & rest & -> & Hs & Hr).
    destruct Hr as [->|(y & r & -> & Hy)].
    + rewrite app_nil_r in *. rewrite space_deco_fails by exact Hs.
      cbn [orelse]. now apply space_eol.
    + rewrite forallb_app in Ht. apply andb_true_iff in Ht as [_ Ht].
      cbn [forallb] in Ht. apply andb_true_iff in Ht as [Hty Hr].
      unfold trailer in Hty. rewrite Hy in Hty. cbn [orb] in Hty.
      match goal with |- orelse ?more _ = _ =>
        assert (more = Some m) as ->; [|reflexivity] end.
      rewrite rmatch_seq, rmatch_star.
      apply greedy_chr_all; [exact Hs|right; eauto|
                             rewrite length_app; lia|].
      rewrite rmatch_chr_cons, Hty.
      assert ((pos <? S (pos + length sps)) = true) as ->
        by (apply Nat.ltb_lt; lia).
      apply IH; [exact Hr|rewrite length_app in Hf; cbn in Hf; lia|].
      rewrite length_app in Hk. cbn [length] in Hk.
      now replace (S (pos + length sps) + length r)
        with (pos + (length sps + S (length r))) by lia.
Qed.

Lemma trailer_succeeds (k : cont) m pos (t : pystr) c :
  forallb trailer t = true -> k (pos + length t) [] c = Some m ->
  rmatch trailer_re pos t c k = Some m.
Proof.
  intros Ht Hk. unfold trailer_re. rewrite rmatch_seq, rmatch_star.
  now apply trailer_loop.
Qed.

Lemma forallb_space_trailer (w : pystr) :
  forallb isspace w = true -> forallb trailer w = true.
Proof.
  induction w as [|x w IH]; cbn [forallb]; [reflexivity|].
  intros H. apply andb_true_iff in H as [Hx Hw].
  unfold trailer at 1. now rewrite Hx, IH.
Qed.

Lemma matches_trailer_star g pos w rest c c' :
  matches (Star g (Seq (Star true (Chr isspace))
                       (Chr (one_of decorations)))) pos w rest c c' ->
  forallb trailer w = true.
Proof.
  remember (Star g (Seq (Star true (Chr isspace))
                        (Chr (one_of decorations)))) as r eqn:E.
  induction 1; inv E.
  - reflexivity.
  - rewrite forallb_app, IHmatches2 by reflexivity.
    match goal with H : matches (Seq _ _) _ _ _ _ _ |- _ => inv H end.
    match goal with H : matches (Chr _) _ _ _ _ _ |- _ => inv H end.
    match goal with H : matches (Star _ (Chr _)) _ _ _ _ _ |- _ =>
      apply matches_star_chr, forallb_space_trailer in H; rename H into Hs
    end.
    rewrite forallb_app, Hs. cbn [forallb]. unfold trailer at 1.
    match goal with H : one_of _ _ = true |- _ => rewrite H end.
    now rewrite orb_true_r.
Qed.

(** The end of the phase pattern fails on a text with another
    character. *)
Lemma trailer_fails pos (s : pystr) c (k : cont) (x : char) :
  In x s -> trailer x = false -> rmatch trailer_re pos s c k = None.
Proof.
  intros Hin Hx.
  destruct (rmatch trailer_re pos s c k) as [m|] eqn:E;
    [exfalso|reflexivity].
  apply rmatch_sound in E as (w & s' & c' & -> & M & _).
  unfold trailer_re in M. inv M.
  match goal with H : matches (Seq _ Eol) _ _ _ _ _ |- _ => inv H end.
  match goal with H : matches Eol _ _ _ _ _ |- _ => inv H end.
  match goal with H : matches (Star _ (Seq _ _)) _ _ _ _ _ |- _ =>
    apply matches_trailer_star in H; rename H into H1 end.
  match goal with H : matches (Star _ (Chr _)) _ _ _ _ _ |- _ =>
    apply matches_star_chr, forallb_space_trailer in H; rename H into H2
  end.
  rewrite forallb_forall in H1, H2.
  repeat (apply in_app_or in Hin as [Hin|Hin]).
  - rewrite (H1 _ Hin) in Hx. discriminate.
  - rewrite (H2 _ Hin) in Hx. discriminate.
  - destruct Hin.
  - match goal with H : _ \/ _ |- _ => destruct H as [->| ->] end;
      [destruct Hin|].
    destruct Hin as [<-|[]]. discriminate.
Qed.

(** The phase pattern matches a label that ends before the white
    space and decorations closing the line; the label has one
    character after the colon at least. *)
Lemma phase_re_complete (d text tail : pystr) (t0 : char) :
  d <> [] -> forallb isdecimal d = true ->
  forallb dot (t0 :: text) = true ->
  (text = [] \/ exists t c, text = t ++ [c] /\ trailer c = false) ->
  forallb trailer tail = true ->
  re_match phase_re
    (u "## " ++ u "Phase " ++ d ++ u ":" ++ t0 :: text ++ tail)
  = Some [(1, u "Phase " ++ d ++ colon :: t0 :: text)].
Proof.
  intros Nd Hd Hdot Hlast Htail.
  destruct d as [|d0 d]; [congruence|clear Nd].
  cbn [forallb] in Hd, Hdot.
  apply andb_true_iff in Hd as [Hd0 Hd].
  apply andb_true_iff in Hdot as [Ht0 Hdot].
  unfold re_match, phase_re.
  rewrite rmatch_seq, rmatch_bol, rmatch_seq, rmatch_lit.
  rewrite rmatch_seq, rmatch_group, rmatch_seq, rmatch_lit, rmatch_seq.
  eapply plus_greedy with (a := d) (b := u ":" ++ t0 :: text ++ tail);
    [reflexivity|exact Hd0|exact Hd|right; eexists _, _; split; reflexivity|].
  rewrite rmatch_seq, rmatch_lit.
  eapply plus_lazy with (a := text) (b := tail);
    [reflexivity|exact Ht0|exact Hdot| |].
  - intros a1 a2 E N.
    destruct Hlast as [->|(t & x & -> & Hx)].
    { symmetry in E. apply app_eq_nil in E. tauto. }
    apply trailer_fails with (x := x); [|exact Hx].
    destruct (exists_last N) as (a2' & z & ->).
    rewrite app_assoc in E. apply app_inj_tail in E as [_ <-].
    apply in_or_app. left. apply in_or_app. right. now left.
  - apply trailer_succeeds; [exact Htail|].
    do 3 f_equal.
    rewrite <- (firstn_length_app
                  (u "Phase " ++ (d0 :: d) ++ colon :: t0 :: text) tail).
    f_equal.
    + rewrite !length_app.
      change (length (u "## ")) with 3. change (length (u "Phase ")) with 6.
      change (length (u ":")) with 1. cbn [length]. lia.
    + rewrite <- !app_assoc. reflexivity.
Qed.

Lemma one_line_forallb_dot (w : pystr) :
  one_line w -> forallb dot w = true.
Proof.
  unfold one_line. intros H. apply forallb_forall. intros x Hx.
  unfold dot. destruct (N.eqb_spec x nl); [subst; tauto|reflexivity].
Qed.

(** What the phase pattern matches, in full. *)
Lemma phase_re_match_line (s : pystr) (m : captures) :
  re_match phase_re s = Some m ->
  exists d x tl,
    s = u "## Phase " ++ d ++ colon :: x ++ tl /\
    group 1 m = Some (u "Phase " ++ d ++ colon :: x) /\
    d <> [] /\ forallb isdecimal d = true /\
    x <> [] /\ forallb dot x = true /\ forallb trailer tl = true.
Proof.
  intros H. apply re_match_sound in H as (w & s' & -> & M).
  unfold phase_re, Plus in M.
  repeat match goal with
  | M : matches (Seq _ _) _ _ _ _ _ |- _ => inv M
  | M : matches Bol _ _ _ _ _ |- _ => inv M
  | M : matches Eol _ _ _ _ _ |- _ => inv M
  | M : matches (Lit _) _ _ _ _ _ |- _ => inv M
  | M : matches (Chr _) _ _ _ _ _ |- _ => inv M
  | M : matches (Group _ _) _ _ _ _ _ |- _ => inv M
  end.
  repeat match goal with
  | H : matches (Star _ (Chr isdecimal)) _ _ _ _ _ |- _ =>
      pose proof (matches_groupless H eq_refl);
      apply matches_star_chr in H
  | H : matches (Star _ (Chr dot)) _ _ _ _ _ |- _ =>
      pose proof (matches_groupless H eq_refl);
      apply matches_star_chr in H
  | H : matches (Star _ (Chr isspace)) _ _ _ _ _ |- _ =>
      pose proof (matches_groupless H eq_refl);
      apply matches_star_chr, forallb_space_trailer in H
  | H : matches (Star _ (Seq _ _)) _ _ _ _ _ |- _ =>
      pose proof (matches_groupless H eq_refl);
      apply matches_trailer_star in H
  end.
  subst.
  match goal with
  | Hd : isdecimal ?a = true, Hx : dot ?b = true,
    Hds : forallb isdecimal ?d = true, Hxs : forallb dot ?x = true,
    H1 : forallb trailer ?w1 = true, H2 : forallb trailer ?w2 = true,
    Hs : s' = [] \/ s' = [nl] |- _ =>
      exists (a :: d), (b :: x), (w1 ++ w2 ++ s');
      cbn [forallb]; rewrite Hd, Hx, Hds, Hxs, !forallb_app, H1, H2;
      destruct Hs as [->| ->]
  end;
  (repeat split;
   [cbn [app u]; rewrite <- ?app_assoc; cbn [app];
    rewrite <- ?app_assoc; cbn [app]; rewrite ?app_nil_r; reflexivity
   |discriminate|discriminate]).
Qed.

(** A text ends with white space and decorations, after its last
    other character. *)
Lemma span_trailer (x : pystr) :
  exists text tl,
    x = text ++ tl /\ forallb trailer tl = true /\
    (text = [] \/ exists t c, text = t ++ [c] /\ trailer c = false).
Proof.
  induction x as [|c x (text & tl & -> & Htl & Ht)] using rev_ind.
  - exists [], []. auto.
  - destruct (trailer c) eqn:Ec.
    + exists text, (tl ++ [c]). rewrite forallb_app, Htl. cbn [forallb].
      rewrite Ec, app_assoc. auto.
    + exists ((text ++ tl) ++ [c]), []. rewrite app_nil_r.
      repeat split. right. eauto.
Qed.

(** The three kinds of lines, from the text of the stripped line. *)
Lemma classify_phase_intro (line d text tail : pystr) (t0 : char) :
  strip line = u "## Phase " ++ d ++ colon :: t0 :: text ++ tail ->
  d <> [] -> forallb isdecimal d = true ->
  one_line (t0 :: text) ->
  (text = [] \/ exists t c, text = t ++ [c] /\ trailer c = false) ->
  forallb trailer tail = true ->
  classify line
  = PhaseHeader (strip (u "Phase " ++ d ++ colon :: t0 :: text)).
Proof.
  intros E Nd Hd Ho Hl Ht. unfold classify. rewrite E.
  change (u "## Phase " ++ d ++ colon :: t0 :: text ++ tail)
    with (u "## " ++ u "Phase " ++ d ++ u ":" ++ t0 :: text ++ tail).
  rewrite phase_re_complete by auto using one_line_forallb_dot.
  reflexivity.
Qed.

Lemma classify_marker_intro (marker w : pystr) :
  w <> [] -> one_line w ->
  re_match (Seq Bol (Seq (Lit marker)
             (Seq (Group 1 (Plus true (Chr dot))) Eol))) (marker ++ w)
  = Some [(1, w)].
Proof. intros N H. apply marker_re_complete; auto using one_line_forallb_dot. Qed.

Lemma classify_section_intro (line w : pystr) :
  strip line = u "### " ++ w -> w <> [] -> one_line w ->
  classify line = SectionHeader (strip w).
Proof.
  intros E N H. unfold classify. rewrite E.
  rewrite phase_re_start by reflexivity.
  unfold section_re. now rewrite classify_marker_intro.
Qed.

Lemma classify_task_intro (line w : pystr) :
  strip line = u "- [ ] " ++ w -> w <> [] -> one_line w ->
  classify line = TaskLine (strip w).
Proof.
  intros E N H. unfold classify. rewrite E.
  rewrite phase_re_start by reflexivity.
  unfold section_re. rewrite literal_start by reflexivity.
  unfold task_re. now rewrite classify_marker_intro.
Qed.

(** The text after the marker of a stripped line that one of the two
    marker patterns matches. *)
Lemma marker_line_shape (marker line : pystr) (m : captures) :
  re_match (Seq Bol (Seq (Lit marker)
             (Seq (Group 1 (Plus true (Chr dot))) Eol))) (strip line)
    = Some m ->
  exists w, strip line = marker ++ w /\ w <> [] /\ one_line w /\
            group 1 m = Some w.
Proof.
  intros H. apply marker_re_match in H as (w & tail & E & T & Hw & Hdot & G).
  assert (tail = []) as ->.
  { destruct T as [->| ->]; [reflexivity|].
    rewrite app_assoc in E. now apply strip_suffix in E. }
  rewrite app_nil_r in E. exists w.
  repeat split; auto using forallb_dot_one_line.
Qed.

Lemma classify_phase_elim (line label : pystr) :
  classify line = PhaseHeader label ->
  exists d t0 text tail,
    strip line = u "## Phase " ++ d ++ colon :: t0 :: text ++ tail /\
    d <> [] /\ forallb isdecimal d = true /\
    one_line (t0 :: text) /\
    (text = [] \/ exists t c, text = t ++ [c] /\ trailer c = false) /\
    forallb trailer tail = true /\
    label = strip (u "Phase " ++ d ++ colon :: t0 :: text).
Proof.
  intros C.
  assert (exists m, re_match phase_re (strip line) = Some m) as (m & Ep).
  { unfold classify in C.
    destruct (re_match phase_re (strip line)) as [m|] eqn:Ep; [eauto|].
    destruct (re_match section_re (strip line)) as [m|] eqn:Es.
    { apply marker_label_shape in Es as (w & _ & G & _).
      unfold labelled in C. rewrite G in C. discriminate. }
    destruct (re_match task_re (strip line)) as [m|] eqn:Et;
      [|discriminate].
    apply marker_label_shape in Et as (w & _ & G & _).
    unfold labelled in C. rewrite G in C. discriminate. }
  apply phase_re_match_line in Ep
    as (d & x & tl & E & _ & Nd & Hd & Nx & Hx & Htl).
  destruct x as [|t0 x]; [congruence|clear Nx].
  destruct (span_trailer x) as (text & tl' & -> & Htl' & Hlast).
  assert (Ho : one_line (t0 :: text)).
  { apply forallb_dot_one_line. cbn [forallb] in *.
    rewrite forallb_app in Hx.
    apply andb_true_iff in Hx as [-> Hx].
    now apply andb_true_iff in Hx as [-> _]. }
  assert (E' : strip line
               = u "## Phase " ++ d ++ colon :: t0 :: text ++ tl' ++ tl).
  { rewrite E. cbn [app]. now rewrite <- app_assoc. }
  assert (Ht : forallb trailer (tl' ++ tl) = true)
    by now rewrite forallb_app, Htl', Htl.
  exists d, t0, text, (tl' ++ tl). repeat split; auto.
  rewrite (@classify_phase_intro line d text (tl' ++ tl) t0
             E' Nd Hd Ho Hlast Ht) in C.
  now inv C.
Qed.

Lemma classify_section_elim (line label : pystr) :
  classify line = SectionHeader label ->
  exists w, strip line = u "### " ++ w /\ w <> [] /\ one_line w /\
            label = strip w.
Proof.
  unfold classify.
  destruct (re_match phase_re (strip line)) as [m|] eqn:Ep.
  - apply phase_label_shape in Ep as (g & G & H).
    unfold labelled. rewrite G. discriminate.
  - destruct (re_match section_re (strip line)) as [m|] eqn:Es.
    { apply marker_line_shape in Es as (w & E & N & H & G).
      unfold labelled. rewrite G. intros C. inv C. eauto. }
    destruct (re_match task_re (strip line)) as [m|] eqn:Et;
      [|discriminate].
    apply marker_label_shape in Et as (w & _ & G & _).
    unfold labelled. rewrite G. discriminate.
Qed.

Lemma classify_task_elim (line task : pystr) :
  classify line = TaskLine task ->
  exists w, strip line = u "- [ ] " ++ w /\ w <> [] /\ one_line w /\
            task = strip w.
Proof.
  unfold classify.
  destruct (re_match phase_re (strip line)) as [m|] eqn:Ep.
  - apply phase_label_shape in Ep as (g & G & H).
    unfold labelled. rewrite G. discriminate.
  - destruct (re_match section_re (strip line)) as [m|] eqn:Es.
    { apply marker_label_shape in Es as (w & _ & G & _).
      unfold labelled. rewrite G. discriminate. }
    destruct (re_match task_re (strip line)) as [m|] eqn:Et;
      [|discriminate].
    apply marker_line_shape in Et as (w & E & N & H & G).
    unfold labelled. rewrite G. intros C. inv C. eauto.
Qed.

End Recognition.

(** X7: a line is a phase header exactly when, stripped, it is
    [## Phase <digits>:] followed by a text that has no line break and
    by white space and decorations only; the text is one character,
    or ends with its last character that is neither white space nor a
    decoration.  The label is [Phase <digits>:<text>], stripped. *)
Theorem phase_header_recognised (line label : pystr) :
  classify line = PhaseHeader label <->
  exists d t0 text tail,
    strip line = u "## Phase " ++ d ++ colon :: t0 :: text ++ tail /\
    d <> [] /\ forallb isdecimal d = true /\
    one_line (t0 :: text) /\
    (text = [] \/ exists t c, text = t ++ [c] /\ trailer c = false) /\
    forallb trailer tail = true /\
    label = strip (u "Phase " ++ d ++ colon :: t0 :: text).
Proof.
  split.
  - apply classify_phase_elim.
  - intros (d & t0 & text & tail & E & Nd & Hd & Ho & Hl & Ht & ->).
    now apply classify_phase_intro with (tail := tail).
Qed.

Lemma phase_header_recognised_witness :
  classify (u "## Phase 1:  " ++ [0x1f680; 0x2699; 0xfe0f]%N ++ [nl])
  = PhaseHeader (u "Phase 1:").
Proof.
  apply phase_header_recognised.
  exists (u "1"), sp, [], (sp :: [0x1f680; 0x2699; 0xfe0f]%N).
  repeat split; try reflexivity; try discriminate.
  - intros [H|[]]. discriminate.
  - now left.
Defined.

(** X8: the decorations and the white space that close a phase header
    are not part of its label: when the text after the colon ends with
    a character that is neither, the label is [Phase <digits>:<text>]
    as written. *)
Theorem decorated_phase_header (line d text tail : pystr) (c : char) :
  strip line = u "## Phase " ++ d ++ colon :: text ++ c :: tail ->
  d <> [] -> forallb isdecimal d = true ->
  one_line (text ++ [c]) -> trailer c = false ->
  forallb trailer tail = true ->
  classify line = PhaseHeader (u "Phase " ++ d ++ colon :: text ++ [c]).
Proof.
  intros E Nd Hd Ho Hc Ht.
  assert (Hs : isspace c = false).
  { unfold trailer in Hc. now apply orb_false_iff in Hc as [Hc _]. }
  assert (L : strip (u "Phase " ++ d ++ colon :: text ++ [c])
              = u "Phase " ++ d ++ colon :: text ++ [c]).
  { rewrite strip_phase_label. do 3 f_equal.
    rewrite rstrip_app; now rewrite rstrip_nonspace. }
  rewrite <- L.
  destruct text as [|t0 text].
  - apply classify_phase_intro with (tail := tail); auto.
  - apply classify_phase_intro with (tail := tail); auto.
    + rewrite E. cbn [app]. now rewrite <- app_assoc.
    + right. eauto.
Qed.

Lemma decorated_phase_header_witness :
  classify (u "## Phase 3: Networking Layer " ++ [0x1f310]%N)
  = PhaseHeader (u "Phase 3: Networking Layer").
Proof.
  apply (@decorated_phase_header
           (u "## Phase 3: Networking Layer " ++ [0x1f310]%N)
           (u "3") (u " Networking Laye") (sp :: [0x1f310]%N) 114%N);
    try reflexivity; try discriminate.
  intros H. cbn in H. unfold nl in H.
  repeat destruct H as [H|H]; try discriminate; auto.
Defined.

(** X9: a line is a section header exactly when, stripped, it is
    [### ] followed by a text that is not empty and has no line break;
    its label is the text, stripped. *)
Theorem section_header_recognised (line label : pystr) :
  classify line = SectionHeader label <->
  exists w, strip line = u "### " ++ w /\ w <> [] /\ one_line w /\
            label = strip w.
Proof.
  split.
  - apply classify_section_elim.
  - intros (w & E & N & H & ->). now apply classify_section_intro.
Qed.

Lemma section_header_recognised_witness :
  classify (u "  ###   Connection Pool " ++ [nl])
  = SectionHeader (u "Connection Pool").
Proof.
  apply section_header_recognised. exists (u "  Connection Pool").
  repeat split; try reflexivity; try discriminate.
  intros H. cbn in H. unfold nl in H.
  repeat destruct H as [H|H]; try discriminate; auto.
Defined.

(** X10: a line is an unchecked task exactly when, stripped, it is
    [- [ ] ] followed by a text that is not empty and has no line
    break; the task is the text, stripped. *)
Theorem task_line_recognised (line task : pystr) :
  classify line = TaskLine task <->
  exists w, strip line = u "- [ ] " ++ w /\ w <> [] /\ one_line w /\
            task = strip w.
Proof.
  split.
  - apply classify_task_elim.
  - intros (w & E & N & H & ->). now apply classify_task_intro.
Qed.

Lemma task_line_recognised_witness :
  classify (u "    - [ ]  add a pool" ++ [nl]) = TaskLine (u "add a pool").
Proof.
  apply task_line_recognised. exists (u " add a pool").
  repeat split; try reflexivity; try discriminate.
  intros H. cbn in H. unfold nl in H.
  repeat destruct H as [H|H]; try discriminate; auto.
Defined.

(** * Further properties of the driver *)


(** X11: the script runs the tracker command only when [--create] is
    among the arguments and [--list] is not: otherwise no command is
    run, whatever the arguments, the file and its contents are. *)
Theorem no_command_without_create (fs : filesystem) (gh : tracker)
        (argv : list pystr) :
  contains (u "--create") argv = false \/
  contains (u "--list") argv = true ->
  spawned (snd (run_main fs gh argv)) = [].
Proof.
  intros H. unfold run_main.
  assert (Q : quiet (main fs gh argv)); [|exact (Q start)].
  unfold main.
  apply quiet_bind.
  { destruct (length argv <? 2); [apply quiet_usage|apply quiet_ret]. }
  intros _. cbv zeta.
  apply quiet_bind; [apply quiet_lift|intros phs].
  destruct (contains (u "--list") argv); [apply quiet_list_summary|].
  destruct H as [->|H]; [|discriminate].
  apply quiet_bind; [apply quiet_print|intros _].
  apply quiet_bind; [apply quiet_print|intros _].
  apply quiet_bind; [apply quiet_numbered|intros _].
  apply quiet_bind; [apply quiet_print|intros _].
  apply quiet_print.
Qed.

Lemma no_command_without_create_witness :
  spawned (snd (run_main (one_file (u "c.md") (unlines three_phases_doc))
                         failing_tracker
                         [u "prog"; u "c.md"; u "--phase"; u "3"]))
  = [].
Proof.
  apply no_command_without_create. left. reflexivity.
Defined.




Section Arguments.

Lemma contains_app (x : pystr) (a b : list pystr) :
  contains x (a ++ b) = contains x a || contains x b.
Proof. unfold contains. apply existsb_app. Qed.

Lemma str_eqb_sym (a b : pystr) : str_eqb a b = str_eqb b a.
Proof.
  destruct (str_eqb b a) eqn:E.
  - apply str_eqb_eq in E. subst. apply str_eqb_refl.
  - destruct (str_eqb a b) eqn:E'; [|reflexivity].
    apply str_eqb_eq in E'. subst. now rewrite str_eqb_refl in E.
Qed.

(** [index] finds a text that comes after a list without it. *)
Lemma index_app_absent (x : pystr) (a b : list pystr) :
  contains x a = false -> index x (a ++ x :: b) = Some (length a).
Proof.
  unfold contains. induction a as [|y a IH]; cbn [existsb app index length].
  - intros _. now rewrite str_eqb_refl.
  - intros H. apply orb_false_iff in H as [Hy Ha].
    rewrite str_eqb_sym, Hy. now rewrite IH.
Qed.

End Arguments.

(** X13: when the file argument is given and no argument is
    [--phase], a [--phase] added as the last argument has no value and
    is ignored: the run is the one without it. *)
Theorem trailing_phase_flag_is_ignored (fs : filesystem) (gh : tracker)
        (argv : list pystr) :
  2 <= length argv -> contains (u "--phase") argv = false ->
  run_main fs gh (argv ++ [u "--phase"]) = run_main fs gh argv.
Proof.
  intros L H. unfold run_main, main. cbv zeta.
  rewrite !contains_app, (@index_app_absent (u "--phase") argv [] H),
    !length_app, H.
  change (contains (u "--create") [u "--phase"]) with false.
  change (contains (u "--list") [u "--phase"]) with false.
  rewrite !orb_false_r. cbn [orb length].
  rewrite Nat.ltb_irrefl, app_nth1 by lia.
  assert ((length argv <? 2) = false) as -> by (apply Nat.ltb_ge; lia).
  assert ((length argv + 1 <? 2) = false) as -> by (apply Nat.ltb_ge; lia).
  reflexivity.
Qed.

Lemma trailing_phase_flag_is_ignored_witness :
  run_main (one_file (u "c.md") (unlines three_phases_doc)) failing_tracker
           ([u "prog"; u "c.md"; u "--create"] ++ [u "--phase"])
  = run_main (one_file (u "c.md") (unlines three_phases_doc))
             failing_tracker [u "prog"; u "c.md"; u "--create"].
Proof.
  apply trailing_phase_flag_is_ignored; [cbn; lia|reflexivity].
Defined.

Section Issues.

Lemma collect_sections (phase : pystr) (sections : sections_t) :
  forall issues,
    fold_left
      (fun issues (item : pystr * list pystr) =>
         let (section, tasks) := item in
         match tasks with
         | [] => issues
         | _ :: _ =>
             let (title, body) :=
               generate_issue_content phase section tasks in
             issues ++ [(title, body, phase)]
         end)
      sections issues
    = issues ++ flat_map (section_issues phase) sections.
Proof.
  induction sections as [|[section tasks] sections IH]; intros issues.
  - cbn. now rewrite app_nil_r.
  - cbn [fold_left flat_map]. rewrite IH. unfold section_issues at 2.
    cbn [fst snd]. destruct tasks as [|t tasks]; [reflexivity|].
    destruct (generate_issue_content phase section (t :: tasks))
      as [title body].
    cbn [fst snd]. now rewrite <- app_assoc.
Qed.

Lemma collect_phases (phase_filter : option pystr) (phs : phases_t) :
  forall issues,
    fold_left
      (fun issues (item : pystr * sections_t) =>
         let (phase, sections) := item in
         if phase_skipped phase_filter phase then issues
         else
           fold_left
             (fun issues (item : pystr * list pystr) =>
                let (section, tasks) := item in
                match tasks with
                | [] => issues
                | _ :: _ =>
                    let (title, body) :=
                      generate_issue_content phase section tasks in
                    issues ++ [(title, body, phase)]
                end)
             sections issues)
      phs issues
    = issues ++ flat_map (phase_issues phase_filter) phs.
Proof.
  induction phs as [|[phase sections] phs IH]; intros issues.
  - cbn. now rewrite app_nil_r.
  - cbn [fold_left flat_map]. rewrite IH. unfold phase_issues at 2.
    cbn [fst snd]. destruct (phase_skipped phase_filter phase);
      [reflexivity|].
    now rewrite collect_sections, <- app_assoc.
Qed.

(** The two loops of [main], as the issues of the phases. *)
Lemma collect_issues_flat (phase_filter : option pystr) (phs : phases_t) :
  collect_issues phase_filter phs
  = flat_map (phase_issues phase_filter) phs.
Proof. unfold collect_issues. now rewrite collect_phases. Qed.

Lemma In_section_issues (phase : pystr) (item : pystr * list pystr)
      (issue : pystr * pystr * pystr) :
  In issue (section_issues phase item) <->
  snd item <> [] /\
  issue = (fst (generate_issue_content phase (fst item) (snd item)),
           snd (generate_issue_content phase (fst item) (snd item)),
           phase).
Proof.
  unfold section_issues. destruct (snd item) as [|t tasks]; cbn [In].
  - split; [tauto|intros [N _]; congruence].
  - split; [intros [<-|[]]; split; [discriminate|reflexivity]|].
    intros [_ ->]. now left.
Qed.

Lemma In_collect_issues (phase_filter : option pystr) (phs : phases_t)
      (issue : pystr * pystr * pystr) :
  In issue (collect_issues phase_filter phs) <->
  exists phase sections section tasks,
    In (phase, sections) phs /\ phase_skipped phase_filter phase = false /\
    In (section, tasks) sections /\ tasks <> [] /\
    issue = (fst (generate_issue_content phase section tasks),
             snd (generate_issue_content phase section tasks),
             phase).
Proof.
  rewrite collect_issues_flat, in_flat_map. split.
  - intros ([phase sections] & Hp & Hi). unfold phase_issues in Hi.
    cbn [fst snd] in Hi.
    destruct (phase_skipped phase_filter phase) eqn:Sk; [destruct Hi|].
    apply in_flat_map in Hi as ([section tasks] & Hs & Hi).
    apply In_section_issues in Hi as [N ->]. cbn [fst snd] in *.
    exists phase, sections, section, tasks. auto.
  - intros (phase & sections & section & tasks & Hp & Sk & Hs & N & ->).
    exists (phase, sections). split; [exact Hp|].
    unfold phase_issues. cbn [fst snd]. rewrite Sk.
    apply in_flat_map. exists (section, tasks). split; [exact Hs|].
    apply In_section_issues. auto.
Qed.

End Issues.

(** X14: the issues that [main] collects are those of the sections
    with at least one task, in the phases that the filter does not
    skip: a section without task gives no issue. *)
Theorem collected_issues (phase_filter : option pystr) (phs : phases_t)
        (issue : pystr * pystr * pystr) :
  In issue (collect_issues phase_filter phs) <->
  exists phase sections section tasks,
    In (phase, sections) phs /\ phase_skipped phase_filter phase = false /\
    In (section, tasks) sections /\ tasks <> [] /\
    issue = (fst (generate_issue_content phase section tasks),
             snd (generate_issue_content phase section tasks),
             phase).
Proof. apply In_collect_issues. Qed.

Lemma collected_issues_witness :
  In (fst (generate_issue_content (u "Phase 1: A") (u "S") [u "t"]),
      snd (generate_issue_content (u "Phase 1: A") (u "S") [u "t"]),
      u "Phase 1: A")
     (collect_issues (Some (u "1"))
        [(u "Phase 1: A", [(u "R", []); (u "S", [u "t"])]);
         (u "Phase 2: B", [(u "S", [u "v"])])]).
Proof.
  apply collected_issues.
  exists (u "Phase 1: A"), [(u "R", []); (u "S", [u "t"])], (u "S"), [u "t"].
  repeat split.
  - now left.
  - right. now left.
  - discriminate.
Defined.

Section Summary.

(** The lines of the sections of a phase. *)
Lemma summary_sections (sections : sections_t) :
  forall w, exists out,
    for_each sections
      (fun (item : pystr * list pystr) =>
         let (section, tasks) := item in
         match tasks with
         | [] => ret tt
         | _ :: _ =>
             print (u "  - " ++ section ++ u ": " ++
                    str_of_nat (length tasks) ++ u " tasks")
         end) w
    = (Ok tt, {| printed := printed w ++ out; spawned := spawned w |}).
Proof.
  unfold for_each.
  induction sections as [|[section tasks] sections IH]; intros w.
  - exists []. cbn. rewrite app_nil_r. now destruct w.
  - cbn [for_fold]. unfold bind at 1.
    destruct tasks as [|t tasks].
    + cbn [ret]. apply IH.
    + unfold print at 1.
      match goal with |- context [for_fold sections tt ?f ?w1] =>
        destruct (IH w1) as (out & ->) end.
      cbn [printed spawned]. eexists. now rewrite <- app_assoc.
Qed.

(** The loop over the phases adds up their tasks. *)
Lemma summary_phases (phs : phases_t) :
  forall total w, exists out,
    for_fold phs total
      (fun total_tasks (item : pystr * sections_t) =>
         let (phase, sections) := item in
         let phase_tasks :=
           list_sum (map (@length pystr) (Dict.values sections)) in
         let total_tasks := total_tasks + phase_tasks in
         print ([nl] ++ phase ++ u " (" ++ str_of_nat phase_tasks ++
                u " tasks)") >>
         for_each sections
           (fun (item : pystr * list pystr) =>
              let (section, tasks) := item in
              match tasks with
              | [] => ret tt
              | _ :: _ =>
                  print (u "  - " ++ section ++ u ": " ++
                         str_of_nat (length tasks) ++ u " tasks")
              end) >>
         ret total_tasks) w
    = (Ok (total + length (all_tasks phs)),
       {| printed := printed w ++ out; spawned := spawned w |}).
Proof.
  cbv zeta. induction phs as [|[phase sections] phs IH]; intros total w.
  - exists []. cbn. rewrite app_nil_r, Nat.add_0_r. now destruct w.
  - cbn [for_fold]. unfold bind at 1. unfold bind at 1.
    unfold print at 1. unfold bind at 1.
    match goal with |- context [for_each sections ?f ?w1] =>
      destruct (summary_sections sections w1) as (out1 & ->) end.
    cbn [ret printed spawned].
    match goal with |- context [for_fold phs ?t ?f ?w2] =>
      destruct (IH t w2) as (out2 & ->) end.
    cbn [printed spawned]. eexists. f_equal.
    + f_equal. unfold all_tasks. cbn [flat_map snd].
      rewrite length_app, length_concat. fold (all_tasks phs). lia.
    + now rewrite <- !app_assoc.
Qed.

Lemma summary_total (phs : phases_t) (w : world) :
  exists out,
    list_summary phs w
    = (Ok tt,
       {| printed :=
            printed w ++ out ++
            [u "Total uncompleted tasks: " ++
             str_of_nat (length (all_tasks phs))];
          spawned := spawned w |}).
Proof.
  unfold list_summary. unfold bind at 1. unfold print at 1.
  unfold bind at 1.
  match goal with |- context [for_fold phs 0 ?f ?w1] =>
    destruct (summary_phases phs 0 w1) as (out & E) end.
  cbv zeta in E. rewrite E. clear E.
  unfold bind, print. cbn [printed spawned Nat.add].
  exists ([[nl] ++ u "=== Implementation Checklist Summary ===" ++ [nl]]
          ++ out ++ [[nl] ++ repeat_str (u "=") 40]).
  f_equal. f_equal. now rewrite <- !app_assoc.
Qed.

End Summary.

(** X15: with [--list], once the checklist is parsed, the script runs
    no command and the last line it prints gives the number of all the
    tasks of the result, the sum of those of the phases. *)
Theorem list_reports_the_number_of_tasks (fs : filesystem) (gh : tracker)
        (argv : list pystr) (phs : phases_t) :
  2 <= length argv ->
  parse_checklist fs (nth 1 argv []) = Ok phs ->
  contains (u "--list") argv = true ->
  exists out,
    run_main fs gh argv
    = (Ok tt,
       {| printed :=
            out ++ [u "Total uncompleted tasks: " ++
                    str_of_nat (length (all_tasks phs))];
          spawned := [] |}).
Proof.
  intros L E Hl. apply Nat.ltb_ge in L.
  unfold run_main, main. rewrite L. unfold bind at 1. cbn [ret].
  cbv zeta. unfold bind at 1, lift. rewrite E, Hl.
  destruct (summary_total phs start) as (out & ->).
  exists out. reflexivity.
Qed.

Lemma list_reports_the_number_of_tasks_witness :
  exists out,
    run_main (one_file (u "c.md") (unlines three_phases_doc)) failing_tracker
             [u "prog"; u "c.md"; u "--list"]
    = (Ok tt,
       {| printed :=
            out ++ [u "Total uncompleted tasks: " ++
                    str_of_nat
                      (length
                         (all_tasks
                            [(u "Phase 2: X", [(u "S", [u "a"])]);
                             (u "Phase 3: Y", [(u "S", [u "b"])]);
                             (u "Phase 30: Z", [(u "S", [u "c"])])]))];
          spawned := [] |}).
Proof.
  apply list_reports_the_number_of_tasks.
  - cbn. lia.
  - vm_compute. reflexivity.
  - reflexivity.
Defined.

Section Order.

Lemma contains_In (x : pystr) (l : list pystr) :
  contains x l = true <-> In x l.
Proof.
  unfold contains. rewrite existsb_exists. split.
  - intros (y & Hy & E). apply str_eqb_eq in E. now subst.
  - intros H. exists x. split; [exact H|apply str_eqb_refl].
Qed.

Lemma keys_set_contains {V} (k : pystr) (v : V) (d : Dict.dict V) :
  Dict.keys (Dict.set k v d)
  = if contains k (Dict.keys d) then Dict.keys d else Dict.keys d ++ [k].
Proof.
  rewrite keys_set. destruct (Dict.get k d) eqn:G.
  - assert (C : contains k (Dict.keys d) = true).
    { apply contains_In, get_In_keys. congruence. }
    now rewrite C.
  - destruct (contains k (Dict.keys d)) eqn:C; [|reflexivity].
    apply contains_In, get_In_keys in C. congruence.
Qed.

Lemma keys_set_present {V} (k : pystr) (v v' : V) (d : Dict.dict V) :
  Dict.get k d = Some v' -> Dict.keys (Dict.set k v d) = Dict.keys d.
Proof. intros G. now rewrite keys_set, G. Qed.

Lemma step_keys (st st' : pstate) (line : pystr) :
  step st line = Ok st' ->
  Dict.keys (phases st')
  = first_occurrences_from (Dict.keys (phases st)) (phase_labels [line]).
Proof.
  rewrite step_classify. unfold phase_labels, first_occurrences_from.
  cbn [flat_map]. rewrite app_nil_r.
  destruct (classify line) as [Q|S'|t|]; cbn [step_kind fold_left].
  - intros E. inv E. cbn [phases]. apply keys_set_contains.
  - destruct (truthy (current_phase st)) as [cp|]; [|intros E; now inv E].
    intros E. apply rbind_ok in E as (secs & G & E). inv E. cbn [phases].
    apply getitem_ok in G. now apply keys_set_present with (v' := secs).
  - destruct (truthy (current_phase st)) as [cp|]; [|intros E; now inv E].
    destruct (truthy (current_section st)) as [cs|];
      [|intros E; now inv E].
    intros E. apply rbind_ok in E as (secs & G & E).
    apply rbind_ok in E as (tasks & _ & E). inv E. cbn [phases].
    apply getitem_ok in G. now apply keys_set_present with (v' := secs).
  - intros E. now inv E.
Qed.

Lemma run_lines_keys (lines : list pystr) :
  forall st st',
    run_lines st lines = Ok st' ->
    Dict.keys (phases st')
    = first_occurrences_from (Dict.keys (phases st)) (phase_labels lines).
Proof.
  induction lines as [|l lines IH]; intros st st' E; cbn in E.
  - now inv E.
  - apply rbind_ok in E as (st1 & E1 & E).
    rewrite (IH _ _ E), (step_keys _ _ E1).
    unfold first_occurrences_from, phase_labels. cbn [flat_map].
    now rewrite app_nil_r, fold_left_app.
Qed.

End Order.

(** X16: the phases of the result are the labels of the phase headers
    of the document, each once, in the order of their first
    appearance. *)
Theorem phases_in_order_of_first_appearance (lines : list pystr)
        (phs : phases_t) :
  parse_lines lines = Ok phs ->
  Dict.keys phs = first_occurrences (phase_labels lines).
Proof.
  unfold parse_lines. intros E. apply rbind_ok in E as (st & E & Ephs).
  inv Ephs. now apply run_lines_keys in E.
Qed.

Lemma phases_in_order_of_first_appearance_witness :
  Dict.keys ([(u "Phase 2: B", [(u "T", [])]);
              (u "Phase 1: A", [(u "S", [])])] : phases_t)
  = first_occurrences
      (phase_labels [u "## Phase 2: B"; u "## Phase 1: A"; u "### S";
                     u "## Phase 2: B"; u "### T"]).
Proof.
  apply phases_in_order_of_first_appearance. vm_compute. reflexivity.
Defined.

Section EndToEnd.

Lemma In_get {V} (d : Dict.dict V) (k : pystr) (v : V) :
  NoDup (Dict.keys d) -> In (k, v) d -> Dict.get k d = Some v.
Proof.
  induction d as [|[k' v'] d IH]; cbn; [tauto|].
  intros N [E|Hin].
  - inv E. now rewrite str_eqb_refl.
  - inv N. destruct (str_eqb k' k) eqn:E; [|now apply IH].
    apply str_eqb_eq in E. subst k'. exfalso.
    match goal with H : ~ In k _ |- _ => apply H end.
    unfold Dict.keys. apply in_map_iff. now exists (k, v).
Qed.

Lemma step_distinct (st st' : pstate) (line : pystr) :
  step st line = Ok st' ->
  distinct_sections (phases st) -> distinct_sections (phases st').
Proof.
  rewrite step_classify. unfold distinct_sections.
  destruct (classify line) as [Q|S'|t|]; cbn [step_kind].
  - intros E F. inv E. cbn [phases]. apply set_Forall; [exact F|].
    cbn. constructor.
  - destruct (truthy (current_phase st)) as [cp|]; [|intros E; now inv E].
    intros E F. apply rbind_ok in E as (secs & G & E). inv E. cbn [phases].
    apply getitem_ok in G. pose proof (get_Forall _ F G) as N.
    apply set_Forall; [exact F|]. cbn [snd] in *.
    now apply NoDup_keys_set.
  - destruct (truthy (current_phase st)) as [cp|]; [|intros E; now inv E].
    destruct (truthy (current_section st)) as [cs|];
      [|intros E; now inv E].
    intros E F. apply rbind_ok in E as (secs & G & E).
    apply rbind_ok in E as (tasks & _ & E). inv E. cbn [phases].
    apply getitem_ok in G. pose proof (get_Forall _ F G) as N.
    apply set_Forall; [exact F|]. cbn [snd] in *.
    now apply NoDup_keys_set.
  - intros E. now inv E.
Qed.

Lemma run_lines_distinct (lines : list pystr) :
  forall st st',
    run_lines st lines = Ok st' ->
    distinct_sections (phases st) -> distinct_sections (phases st').
Proof.
  induction lines as [|l lines IH]; intros st st' E F; cbn in E.
  - now inv E.
  - apply rbind_ok in E as (st1 & E1 & E).
    eapply IH; [exact E|]. eapply step_distinct; eassumption.
Qed.

(** The entries of a result are its pairs. *)
Lemma In_entry (lines : list pystr) (phs : phases_t)
      (phase section : pystr) (sections : sections_t)
      (tasks : list pystr) :
  parse_lines lines = Ok phs ->
  In (phase, sections) phs -> In (section, tasks) sections ->
  entry phs phase section = Some tasks.
Proof.
  unfold parse_lines. intros E Hp Hs.
  apply rbind_ok in E as (st & E & Ephs). inv Ephs.
  assert (N : NoDup (Dict.keys (phases st))).
  { eapply run_lines_NoDup; [exact E|constructor]. }
  assert (D : distinct_sections (phases st)).
  { eapply run_lines_distinct; [exact E|constructor]. }
  unfold entry. rewrite (In_get _ _ _ N Hp).
  unfold distinct_sections in D. rewrite Forall_forall in D.
  apply In_get; [exact (D _ Hp)|exact Hs].
Qed.

Lemma split_no_sep (sep : char) (s : pystr) :
  ~ In sep s -> split sep s = [s].
Proof.
  induction s as [|c s IH]; intros H; cbn [split]; [reflexivity|].
  destruct (N.eqb_spec c sep) as [->|N]; [cbn in H; tauto|].
  rewrite IH; [reflexivity|]. cbn in H. tauto.
Qed.

Lemma title_of_phase_label (digits text section : pystr)
      (tasks : list pystr) :
  forallb isdecimal digits = true ->
  fst (generate_issue_content (u "Phase " ++ digits ++ colon :: text)
                              section tasks)
  = u "[Phase " ++ digits ++ u "] " ++ section.
Proof.
  intros Hd. unfold generate_issue_content. cbn [fst].
  rewrite (app_assoc (u "Phase ")), split_app_sep.
  - cbn [nth]. now rewrite <- app_assoc.
  - intros H. apply in_app_or in H as [H|H].
    + cbn in H. unfold colon in H.
      repeat destruct H as [H|H]; try discriminate; auto.
    + now apply isdecimal_not_colon in H.
Qed.

Lemma checkbox_lines_body (phase section : pystr) (tasks : list pystr) :
  one_line phase -> one_line section -> Forall one_line tasks ->
  checkbox_lines (snd (generate_issue_content phase section tasks))
  = map (app (u "- [ ] ")) tasks.
Proof.
  intros Hp Hs Ht. unfold checkbox_lines, text_lines.
  rewrite body_lines, split_unlines.
  - rewrite !filter_app, filter_checkbox_tasks.
    transitivity (([] ++ map (app (u "- [ ] ")) tasks ++ []) ++ []);
      [reflexivity|now rewrite !app_nil_r].
  - assert (L : forall s, forallb dot s = true -> one_line s)
      by apply forallb_dot_one_line.
    apply Forall_app. split; [|apply Forall_app; split].
    + repeat constructor; try (apply L; reflexivity).
      repeat apply one_line_app; try (apply L; reflexivity); assumption.
    + apply Forall_map. eapply Forall_impl; [|exact Ht].
      intros t H. apply one_line_app; [apply L; reflexivity|exact H].
    + repeat constructor; apply L; reflexivity.
Qed.

Lemma parse_lines_texts (lines : list pystr) (phs : phases_t) :
  parse_lines lines = Ok phs ->
  texts_satisfy (fun p => one_line p /\ phase_label p) one_line one_line phs.
Proof.
  unfold parse_lines. intros E. apply rbind_ok in E as (st & E & Ephs).
  inv Ephs.
  eapply run_lines_texts; [| | |exact E|constructor].
  - intros line x C. split; [now apply classify_phase in C|].
    now apply classify_phase_label in C.
  - intros line x C. now apply classify_section in C.
  - intros line x. apply classify_task.
Qed.

End EndToEnd.

(** X17: every issue collected from a parsed checklist is that of an
    entry of the result with a task at least: its phase reads
    [Phase <digits>:<text>], its title is [[Phase <digits>] <section>],
    and the checkbox lines of its body are the tasks of the entry, in
    their order. *)
Theorem issues_of_a_parsed_checklist (lines : list pystr) (phs : phases_t)
        (phase_filter : option pystr) (title body phase : pystr) :
  parse_lines lines = Ok phs ->
  In (title, body, phase) (collect_issues phase_filter phs) ->
  exists digits text section tasks,
    phase = u "Phase " ++ digits ++ colon :: text /\
    digits <> [] /\ forallb isdecimal digits = true /\
    entry phs phase section = Some tasks /\ tasks <> [] /\
    title = u "[Phase " ++ digits ++ u "] " ++ section /\
    checkbox_lines body = map (app (u "- [ ] ")) tasks.
Proof.
  intros E Hin.
  apply In_collect_issues in Hin
    as (p & sections & section & tasks & Hp & _ & Hs & N & I).
  injection I as -> -> ->.
  pose proof (parse_lines_texts _ E) as T.
  unfold texts_satisfy in T. rewrite Forall_forall in T.
  specialize (T _ Hp). cbn [fst snd] in T.
  destruct T as [[Ho (digits & text & -> & Nd & Hd)] Tsec].
  rewrite Forall_forall in Tsec.
  specialize (Tsec _ Hs). cbn [fst snd] in Tsec.
  destruct Tsec as [Hsec Htasks].
  exists digits, text, section, tasks.
  split; [reflexivity|]. split; [exact Nd|]. split; [exact Hd|].
  split; [eapply In_entry; eassumption|]. split; [exact N|]. split.
  - exact (@title_of_phase_label digits text section tasks Hd).
  - now apply checkbox_lines_body.
Qed.

Lemma issues_of_a_parsed_checklist_witness :
  exists digits text section tasks,
    u "Phase 3: Y" = u "Phase " ++ digits ++ colon :: text /\
    digits <> [] /\ forallb isdecimal digits = true /\
    entry [(u "Phase 2: X", [(u "S", [u "a"])]);
           (u "Phase 3: Y", [(u "S", [u "b"])]);
           (u "Phase 30: Z", [(u "S", [u "c"])])]
          (u "Phase 3: Y") section = Some tasks /\ tasks <> [] /\
    fst (generate_issue_content (u "Phase 3: Y") (u "S") [u "b"])
    = u "[Phase " ++ digits ++ u "] " ++ section /\
    checkbox_lines
      (snd (generate_issue_content (u "Phase 3: Y") (u "S") [u "b"]))
    = map (app (u "- [ ] ")) tasks.
Proof.
  apply (@issues_of_a_parsed_checklist three_phases_doc
           [(u "Phase 2: X", [(u "S", [u "a"])]);
            (u "Phase 3: Y", [(u "S", [u "b"])]);
            (u "Phase 30: Z", [(u "S", [u "c"])])]
           (Some (u "3"))).
  - vm_compute. reflexivity.
  - vm_compute. auto.
Defined.

(** X18: for a phase label without colon, the title has the whole
    label between the square brackets. *)
Theorem title_without_colon (phase section : pystr) (tasks : list pystr) :
  ~ In colon phase ->
  fst (generate_issue_content phase section tasks)
  = u "[" ++ phase ++ u "] " ++ section.
Proof.
  intros H. unfold generate_issue_content. cbn [fst].
  now rewrite split_no_sep.
Qed.

Lemma title_without_colon_witness :
  fst (generate_issue_content (u "Backlog") (u "Docs") [u "t"])
  = u "[" ++ u "Backlog" ++ u "] " ++ u "Docs".
Proof.
  apply title_without_colon. cbn. unfold colon. intros H.
  repeat destruct H as [H|H]; try discriminate; auto.
Defined.

Section FirstSection.

(** In a phase without current section, the lines that are no headers
    change nothing. *)
Lemma step_without_section (st : pstate) (line : pystr) :
  current_section st = None -> is_header line = false ->
  step st line = Ok st.
Proof.
  intros Hs H. rewrite step_classify. unfold is_header in H.
  destruct (classify line); try discriminate; cbn [step_kind];
    [|reflexivity].
  destruct (truthy (current_phase st)); [|reflexivity].
  now rewrite Hs.
Qed.

Lemma run_without_section (junk : list pystr) (st : pstate) :
  current_section st = None ->
  (forall l, In l junk -> is_header l = false) ->
  run_lines st junk = Ok st.
Proof.
  intros Hs. induction junk as [|l junk IH]; intros H; cbn; [reflexivity|].
  rewrite step_without_section by (auto; apply H; now left).
  cbn. apply IH. intros l' Hin. apply H. now right.
Qed.

End FirstSection.

(** X19: the lines between the first phase header of a document and
    the next header are ignored, tasks included: no section is current
    yet. *)
Theorem tasks_before_the_first_section_are_ignored
        (pre junk rest : list pystr) (header label : pystr) :
  (forall l, In l pre -> is_phase_header l = false) ->
  classify header = PhaseHeader label ->
  (forall l, In l junk -> is_header l = false) ->
  parse_lines (pre ++ header :: junk ++ rest) = parse_lines (header :: rest).
Proof.
  intros Hpre C Hjunk. unfold parse_lines.
  rewrite run_lines_app, (run_before_first_phase _ Hpre). cbn [rbind].
  cbn [run_lines]. rewrite step_classify, C. cbn [step_kind rbind].
  rewrite run_lines_app, run_without_section by auto.
  reflexivity.
Qed.

Lemma tasks_before_the_first_section_are_ignored_witness :
  parse_lines ([u "# Checklist"] ++ u "## Phase 1: A"
                 :: [u "- [ ] early"; u "text"] ++ [u "### S"; u "- [ ] t"])
  = parse_lines (u "## Phase 1: A" :: [u "### S"; u "- [ ] t"]).
Proof.
  apply (@tasks_before_the_first_section_are_ignored
           [u "# Checklist"] [u "- [ ] early"; u "text"]
           [u "### S"; u "- [ ] t"] (u "## Phase 1: A") (u "Phase 1: A")).
  - intros l [<-|[]]. vm_compute. reflexivity.
  - vm_compute. reflexivity.
  - intros l [<-|[<-|[]]]; vm_compute; reflexivity.
Defined.

(** X20: when [parse_checklist] raises, for a file that cannot be
    read or decoded or for a [KeyError], the script ends there, with
    the exception and the status one: nothing is printed and no
    command is run. *)
Theorem parser_failure_ends_the_run (fs : filesystem) (gh : tracker)
        (argv : list pystr) (e : exn) :
  2 <= length argv ->
  parse_checklist fs (nth 1 argv []) = Raise e ->
  run_main fs gh argv = (Raise e, start) /\
  exit_status (fst (run_main fs gh argv)) = 1%Z.
Proof.
  intros L E. apply Nat.ltb_ge in L.
  assert (R : run_main fs gh argv = (Raise e, start)).
  { unfold run_main, main. rewrite L. unfold bind at 1. cbn [ret].
    cbv zeta. unfold bind at 1, lift. now rewrite E. }
  split; [exact R|]. rewrite R. cbn [fst].
  unfold parse_checklist in E.
  destruct (fs (nth 1 argv [])) as [[text|]|].
  - apply parse_lines_raises in E as (cs & ->). reflexivity.
  - inv E. reflexivity.
  - inv E. reflexivity.
Qed.

Lemma parser_failure_ends_the_run_witness :
  run_main (one_file (u "c.md") stale_section_doc) failing_tracker
           [u "prog"; u "c.md"; u "--create"]
  = (Raise (KeyError (u "S")), start) /\
  exit_status
    (fst (run_main (one_file (u "c.md") stale_section_doc) failing_tracker
                   [u "prog"; u "c.md"; u "--create"]))
  = 1%Z.
Proof.
  apply parser_failure_ends_the_run.
  - cbn. lia.
  - vm_compute. reflexivity.
Defined.
